(** * stund backend: route composition layer, response helpers, auth interceptor

    A shallow embedding of [backend/router/router.go], [backend/utils/helpers.go],
    [backend/config/config.go], the start-up of [backend/main.go] and the
    database package that follows it.

    Conventions of the embedding.
    - A Go method with a pointer receiver that mutates it returns the updated
      receiver; a callback taking a node pointer that mutates the node it is given
      is a function [RouteNode -> RouteNode].
    - A Go run-time panic (nil dereference, index out of range) is the
      [Panic] outcome of [result].
    - [log.Printf] writes to the process log only and is left out.
    - Library code (net/http, chi, encoding/json, crypto/subtle, database/sql)
      is modelled by its documented behaviour, each definition saying which
      call it is. A dispatcher is the record of what it was asked to
      register; what chi does with the registrations, its panics and its
      routing, is a reading of that record ([chi.replay], [chi.find]). *)

From Stdlib Require Import ZArith Lia Ascii String List Bool.
From stdpp Require Import base strings pretty gmap list.
Import ListNotations.

Local Open Scope Z_scope.

(** ** Outcomes of calls that may panic *)

Inductive result (A : Type) : Type :=
| Ok (a : A)
| Panic (msg : string).
Arguments Ok {A} a.
Arguments Panic {A} msg.

(** ** JSON values (encoding/json) *)

#[local] Unset Elimination Schemes.
Inductive JSON : Type :=
| JNull
| JBool (b : bool)
| JNumber (z : Z)
| JString (s : string)
| JArray (items : list JSON)
| JObject (members : list (string * JSON)).
#[local] Set Elimination Schemes.

(** ** net/http *)

Module Http.

(** [http.Header] is [map[string][]string], keyed by canonical names. *)
Abbreviation Header := (gmap string (list string)).

(** [Header.Get]: the first value of the key, the empty string when the
    key has no value. *)
Definition Get (h : Header) (key : string) : string :=
  match h !! key with
  | Some (v :: _) => v
  | _ => ""
  end.

(** [Header.Set]: the key is given exactly this one value. *)
Definition Set_ (h : Header) (key value : string) : Header :=
  <[key := [value]]> h.

(** The error that ends a body stream: [io.EOF], or the
    ["http: request body too large"] of a [MaxBytesReader]. *)
Inductive ReadEnd : Type := EOF | TooLarge.

(** An [io.ReadCloser] over a request body: the bytes it delivers before
    it reports [ending]. *)
Record Reader : Type := mkReader {
  delivered : string;
  ending : ReadEnd
}.

Definition BodyOf (bytes : string) : Reader :=
  {| delivered := bytes; ending := EOF |}.

Fixpoint take_bytes (n : nat) (s : string) : string :=
  match n, s with
  | S n', String c s' => String c (take_bytes n' s')
  | _, _ => EmptyString
  end.

Record Request : Type := mkRequest {
  Method : string;
  Path : string;
  ReqHeader : Header;
  RemoteAddr : string;
  Body : Reader
}.

Definition set_Body (r : Request) (b : Reader) : Request :=
  {| Method := Method r; Path := Path r; ReqHeader := ReqHeader r;
     RemoteAddr := RemoteAddr r; Body := b |}.

(** A [http.ResponseWriter]: the header map, the status line once it has
    been written, and the JSON documents written to the body. *)
Record ResponseWriter : Type := mkResponseWriter {
  RespHeader : Header;
  Status : option Z;
  Written : list JSON
}.

Definition NewRecorder : ResponseWriter :=
  {| RespHeader := ∅; Status := None; Written := [] |}.

Definition SetHeader (w : ResponseWriter) (key value : string) : ResponseWriter :=
  {| RespHeader := Set_ (RespHeader w) key value;
     Status := Status w;
     Written := Written w |}.

(** [WriteHeader] for a status code from 100 to 999, as the handlers of
    this repository pass (200 and 401); net/http panics on any other.
    Only the first call sets the status. *)
Definition WriteHeader (w : ResponseWriter) (code : Z) : ResponseWriter :=
  {| RespHeader := RespHeader w;
     Status := match Status w with Some c => Some c | None => Some code end;
     Written := Written w |}.

Definition StatusOK : Z := 200.
Definition StatusUnauthorized : Z := 401.

(** [Write]: a body write before [WriteHeader] sends status 200. *)
Definition Write (w : ResponseWriter) (doc : JSON) : ResponseWriter :=
  {| RespHeader := RespHeader w;
     Status := match Status w with Some c => Some c | None => Some StatusOK end;
     Written := Written w ++ [doc] |}.

(** [http.MaxBytesReader(w, body, n)]: the first [n] bytes of [body] are
    delivered as they are; a body holding more ends in [TooLarge] after
    them. *)
Definition MaxBytesReader (w : ResponseWriter) (body : Reader) (n : Z) : Reader :=
  if Z.leb (Z.of_nat (String.length (delivered body))) n then body
  else {| delivered := take_bytes (Z.to_nat n) (delivered body); ending := TooLarge |}.

(** [http.Handler] / [http.HandlerFunc]: [func(w, r)]. *)
Definition Handler : Type := ResponseWriter -> Request -> ResponseWriter.

(** [func(http.Handler) http.Handler]. *)
Definition Middleware : Type := Handler -> Handler.

End Http.

Abbreviation Handler := Http.Handler.
Abbreviation Middleware := Http.Middleware.

(** ** encoding/json: the decoder

    The tokenizer and the folding of field names are the library's and are
    taken as given ([Lexical]); what the decoder does with a scanned value
    and a target type is written out. *)

Module json.

(** The Go types a request is decoded into. A struct lists the JSON names
    of its exported fields. *)
#[local] Unset Elimination Schemes.
Inductive GoType : Type :=
| TBool
| TString
| TNumber
| TAny
| TSlice (elem : GoType)
| TStruct (fields : list (string * GoType)).
#[local] Set Elimination Schemes.

Inductive ScanResult : Type :=
| Complete (v : JSON)
| NeedMore
| SyntaxError (msg : string).

(** The error values [Decode] returns: [io.EOF], [io.ErrUnexpectedEOF],
    the [*http.MaxBytesError] of a capped body, a [*json.SyntaxError] with
    the scanner's message, a [*json.UnmarshalTypeError] with its [Value]
    field, and the error for an object key that names no field, whose text
    is [json: unknown field] followed by the quoted key. *)
Inductive Error : Type :=
| EOF
| ErrUnexpectedEOF
| MaxBytesError
| Syntax (msg : string)
| UnmarshalTypeError (Value : string)
| UnknownField (key : string).

(** [scan]: the first JSON value in the delivered bytes, told how the
    stream ends. [EqualFold]: whether an object key names a field when no
    field has exactly that name. *)
Class Lexical : Type := mkLexical {
  scan : string -> Http.ReadEnd -> ScanResult;
  EqualFold : string -> string -> bool
}.

Record Decoder : Type := mkDecoder {
  src : Http.Reader;
  disallowUnknownFields : bool
}.

Definition NewDecoder (rd : Http.Reader) : Decoder :=
  {| src := rd; disallowUnknownFields := false |}.

Definition DisallowUnknownFields (dec : Decoder) : Decoder :=
  {| src := src dec; disallowUnknownFields := true |}.

(** The field an object key is stored in: the one of exactly that name,
    else the first whose name matches under folding. *)
Definition find_field `{Lexical} (key : string) (fields : list (string * GoType))
    : option GoType :=
  match List.find (fun f => String.eqb key (fst f)) fields with
  | Some f => Some (snd f)
  | None =>
      match List.find (fun f => EqualFold key (fst f)) fields with
      | Some f => Some (snd f)
      | None => None
      end
  end.

(** The decoder keeps the first error and goes on. *)
Definition first_error (e1 e2 : option Error) : option Error :=
  match e1 with Some e => Some e | None => e2 end.

Fixpoint unmarshal `{Lexical} (strict : bool) (t : GoType) (v : JSON) {struct v}
    : option Error :=
  match v with
  | JNull => None
  | JBool _ =>
      match t with
      | TBool | TAny => None
      | _ => Some (UnmarshalTypeError "bool")
      end
  | JNumber _ =>
      match t with
      | TNumber | TAny => None
      | _ => Some (UnmarshalTypeError "number")
      end
  | JString _ =>
      match t with
      | TString | TAny => None
      | _ => Some (UnmarshalTypeError "string")
      end
  | JArray items =>
      match t with
      | TSlice elem =>
          (fix each (l : list JSON) : option Error :=
             match l with
             | [] => None
             | x :: l' => first_error (unmarshal strict elem x) (each l')
             end) items
      | TAny => None
      | _ => Some (UnmarshalTypeError "array")
      end
  | JObject members =>
      match t with
      | TStruct fields =>
          (fix each (l : list (string * JSON)) : option Error :=
             match l with
             | [] => None
             | (key, x) :: l' =>
                 first_error
                   match find_field key fields with
                   | Some ft => unmarshal strict ft x
                   | None =>
                       if strict then Some (UnknownField key)
                       else None
                   end
                   (each l')
             end) members
      | TAny => None
      | _ => Some (UnmarshalTypeError "object")
      end
  end.

(** The bytes JSON takes for white space: space, tab, carriage return
    and line feed. *)
Definition isSpace (c : ascii) : bool :=
  Ascii.eqb c " " || Ascii.eqb c (ascii_of_nat 9) || Ascii.eqb c (ascii_of_nat 13)
  || Ascii.eqb c (ascii_of_nat 10).

Definition nonSpace (b : string) : bool :=
  existsb (fun c => negb (isSpace c)) (list_ascii_of_string b).

(** [dec.Decode(v)] for [v] a pointer to a value of type [t]: [None] is a
    nil error. A stream that ends before the value does gives the error
    of the reader, with [io.EOF] turned into [io.ErrUnexpectedEOF] when
    anything but white space was read. *)
Definition Decode `{Lexical} (dec : Decoder) (t : GoType) : option Error :=
  match scan (Http.delivered (src dec)) (Http.ending (src dec)) with
  | Complete v => unmarshal (disallowUnknownFields dec) t v
  | SyntaxError msg => Some (Syntax msg)
  | NeedMore =>
      match Http.ending (src dec) with
      | Http.EOF =>
          if nonSpace (Http.delivered (src dec)) then Some ErrUnexpectedEOF else Some EOF
      | Http.TooLarge => Some MaxBytesError
      end
  end.

End json.

(** ** utils/helpers.go *)

Module utils.

(** [type APIResponse struct]; [Data any] is [None] for a nil interface. *)
Record APIResponse : Type := mkAPIResponse {
  Success : bool;
  Data : option JSON;
  Error : string
}.

(** [json.Encoder.Encode] of an [APIResponse], following its field tags:
    ["success"] always, ["data"] and ["error"] under [omitempty]. A
    [JString] is the string as a decoder reads it back: the text itself
    when it is valid UTF-8. *)
Definition Encode (resp : APIResponse) : JSON :=
  JObject
    ([("success", JBool (Success resp))]
     ++ match Data resp with Some d => [("data", d)] | None => [] end
     ++ (if String.eqb (Error resp) "" then [] else [("error", JString (Error resp))])).

Definition RespondWithJSON (w : Http.ResponseWriter) (status : Z) (success : bool)
    (data : option JSON) (errorMsg : string) : Http.ResponseWriter :=
  let response := {| Success := success; Data := data; Error := errorMsg |} in
  let w := Http.SetHeader w "Content-Type" "application/json" in
  let w := Http.WriteHeader w status in
  Http.Write w (Encode response).

(** The request with its body replaced by the capped reader, and the
    error ([None] for nil). [req] is the type of the value decoded into. *)
Definition DecodeJSON `{json.Lexical} (w : Http.ResponseWriter) (r : Http.Request)
    (req : json.GoType) : Http.Request * option json.Error :=
  let r := Http.set_Body r (Http.MaxBytesReader w (Http.Body r) (Z.shiftl 64 10)) in
  let dec := json.NewDecoder (Http.Body r) in
  let dec := json.DisallowUnknownFields dec in
  match json.Decode dec req with
  | Some err => (r, Some err)
  | None => (r, None)
  end.

(** *** strings and crypto/subtle *)

(** [strings.HasPrefix]. *)
Fixpoint HasPrefix (s prefix : string) {struct prefix} : bool :=
  match prefix, s with
  | EmptyString, _ => true
  | String p prefix', String c s' => Ascii.eqb c p && HasPrefix s' prefix'
  | String _ _, EmptyString => false
  end.

Fixpoint drop_bytes (n : nat) (s : string) : string :=
  match n, s with
  | S n', String _ s' => drop_bytes n' s'
  | _, _ => s
  end.

(** [strings.TrimPrefix]: [s] without the prefix when it has it. *)
Definition TrimPrefix (s prefix : string) : string :=
  if HasPrefix s prefix then drop_bytes (String.length prefix) s else s.

(** [[]byte(s)], each byte as a number below 256. *)
Definition bytes (s : string) : list Z :=
  map (fun c => Z.of_N (N_of_ascii c)) (list_ascii_of_string s).

(** [subtle.ConstantTimeByteEq]: [int((uint32(x^y) - 1) >> 31)], the
    subtraction wrapping around at 32 bits. *)
Definition ConstantTimeByteEq (x y : Z) : Z :=
  Z.shiftr ((Z.lxor x y - 1) mod 2 ^ 32) 31.

(** The loop of [subtle.ConstantTimeCompare]: [v |= x[i] ^ y[i]], on bytes. *)
Fixpoint xor_or (v : Z) (x y : list Z) : Z :=
  match x, y with
  | a :: x', b :: y' => xor_or (Z.lor v (Z.lxor a b)) x' y'
  | _, _ => v
  end.

(** [subtle.ConstantTimeCompare]: 1 when the slices are equal, else 0. *)
Definition ConstantTimeCompare (x y : list Z) : Z :=
  if negb (Nat.eqb (length x) (length y)) then 0
  else ConstantTimeByteEq (xor_or 0 x y) 0.

Definition MiddlewareAPIAuth (configAPIKey : string) : Middleware :=
  fun next w r =>
    let authHeader := Http.Get (Http.ReqHeader r) "Authorization" in
    if String.eqb authHeader "" then
      RespondWithJSON w Http.StatusUnauthorized false None "Missing API Key"
    else
      let apiKeyPrefix := "Bearer " in
      if negb (HasPrefix authHeader apiKeyPrefix) then
        RespondWithJSON w Http.StatusUnauthorized false None "Invalid Authorization format."
      else
        let headerAPIKey := TrimPrefix authHeader apiKeyPrefix in
        if negb (Z.eqb (ConstantTimeCompare (bytes headerAPIKey) (bytes configAPIKey)) 1) then
          RespondWithJSON w Http.StatusUnauthorized false None "Invalid API Key"
        else
          next w r.

End utils.

(** ** config/config.go (the settings the router reads) *)

Module config.

(** [time.Duration], in nanoseconds. *)
Abbreviation Duration := Z.

Definition Second : Duration := 1000000000.

Record DatabaseConfig : Type := mkDatabaseConfig {
  Path : string;
  WALMode : bool;
  TimeoutSecs : Z;
  MaxOpenConns : Z;
  MaxIdleConns : Z
}.

Record APIConfig : Type := mkAPIConfig { Key : string }.

Record RateLimit : Type := mkRateLimit {
  PerIPLimit : Z;
  ClearInterval : Duration
}.

Record ServerConfig : Type := mkServerConfig {
  AllowedOrigins : list string;
  ConnectionsLimit : Z;
  RateLimit_ : RateLimit;
  RequestSizeLimit : Z;
  ReadTimeout : Duration;
  WriteTimeout : Duration;
  IdleTimeout : Duration;
  HandlerTimeout : Duration
}.

Record Config : Type := mkConfig {
  Port : string;
  Database : DatabaseConfig;
  API : APIConfig;
  Server : ServerConfig
}.

End config.

(** ** The dispatcher (github.com/go-chi/chi/v5)

    A [Mux] value is the record of what a dispatcher was asked to take:
    its [Use] stack and, in the order of the calls, its endpoints and
    mounted sub-routers. The functions that build it never refuse: what
    chi itself does with the registrations, its panics and its matching
    of requests against patterns, is written out after them ([replay],
    [find]). *)

Module chi.

#[local] Unset Elimination Schemes.
Inductive Entry : Type :=
| Endpoint (method pattern : string) (inline : list Middleware) (h : option Handler)
| Mount (pattern : string) (substack : list Middleware) (subtree : list Entry).
#[local] Set Elimination Schemes.

Record Mux : Type := mkMux {
  stack : list Middleware;
  tree : list Entry
}.

(** A [chi.Router] value: the [Mux] it registers on together with the
    inline middlewares that [With] has attached to this handle. *)
Record Router : Type := mkRouter {
  mux : Mux;
  inline_middlewares : list Middleware
}.

(** [chi.NewRouter()]. *)
Definition NewRouter : Mux := {| stack := []; tree := [] |}.

(** [mx.Use(middlewares...)]. *)
Definition Use (mx : Mux) (mws : list Middleware) : Mux :=
  {| stack := stack mx ++ mws; tree := tree mx |}.

(** [var router chi.Router = mx]. *)
Definition AsRouter (mx : Mux) : Router :=
  {| mux := mx; inline_middlewares := [] |}.

(** [router.With(middlewares...)]: an inline router on the same tree. *)
Definition With (rt : Router) (mws : list Middleware) : Router :=
  {| mux := mux rt; inline_middlewares := inline_middlewares rt ++ mws |}.

(** [router.Method(method, pattern, h)]; the value is the [Mux] whose tree
    was asked to take the endpoint. chi panics on a pattern that does not
    begin with a slash ([replay]). *)
Definition Method (method : string) (rt : Router) (pattern : string)
    (h : option Handler) : Mux :=
  {| stack := stack (mux rt);
     tree := tree (mux rt) ++ [Endpoint method pattern (inline_middlewares rt) h] |}.

Definition Get := Method "GET".
Definition Post := Method "POST".
Definition Put := Method "PUT".
Definition Delete := Method "DELETE".

(** [mx.Route(pattern, fn)]: [fn] fills a new sub-router, which is then
    mounted at [pattern]. chi panics when the path is mounted already, and
    the mount takes over the node of [pattern] from an endpoint registered
    there before ([replay], [find]). *)
Definition Route (mx : Mux) (pattern : string) (fn : Mux -> Mux) : Mux :=
  let subRouter := fn NewRouter in
  {| stack := stack mx;
     tree := tree mx ++ [Mount pattern (stack subRouter) (tree subRouter)] |}.

(** One registration, written flat. The pattern of an endpoint below a
    sub-router mounted at [P] is counted as [P] followed by the endpoint's
    pattern; its middleware chain is every [Use] stack on the way followed
    by the inline middlewares, outermost first. Where chi serves the
    endpoint is [find]: that is [P] followed by the pattern when [P] has no
    slash at its end. *)
Record Registration : Type := mkRegistration {
  reg_method : string;
  reg_path : string;
  reg_chain : list Middleware;
  reg_handler : option Handler
}.

Fixpoint registrations_of (prefix : string) (scope : list Middleware) (rt : Entry)
    : list Registration :=
  match rt with
  | Endpoint m p mws h =>
      [{| reg_method := m; reg_path := prefix +:+ p;
          reg_chain := scope ++ mws; reg_handler := h |}]
  | Mount p st sub =>
      flat_map (registrations_of (prefix +:+ p) (scope ++ st)) sub
  end.

Definition Registrations (mx : Mux) : list Registration :=
  flat_map (registrations_of "" (stack mx)) (tree mx).

(** The [(method, fullPath)] pairs of the registrations, a sub-scope
    registered at [P] with a child at [Q] counted as [P] followed by [Q]. *)
Definition Routes (mx : Mux) : list (string * string) :=
  map (fun g => (reg_method g, reg_path g)) (Registrations mx).

(** *** What chi does with the registrations

    The values above record what the dispatcher was asked to register.
    chi itself refuses some registrations with a panic ([replay]) and
    routes each request by the patterns it holds ([find]). Both are
    written out here for patterns without [{] and [*], which chi's tree
    keeps as plain text; patterns with parameters or wild cards are not
    covered. *)

Definition has_byte (c : ascii) (s : string) : bool :=
  existsb (Ascii.eqb c) (list_ascii_of_string s).

(** A pattern that chi's tree keeps as one piece of static text. *)
Definition plain (pattern : string) : bool :=
  negb (has_byte "{" pattern) && negb (has_byte "*" pattern).

(** [len(pattern) == 0 || pattern[0] != '/'], negated. *)
Definition begins_with_slash (pattern : string) : bool :=
  match pattern with
  | String c _ => Ascii.eqb c "/"
  | EmptyString => false
  end.

(** [pattern[len(pattern)-1] == '/'] for a pattern that is not empty. *)
Fixpoint ends_with_slash (pattern : string) : bool :=
  match pattern with
  | EmptyString => false
  | String c EmptyString => Ascii.eqb c "/"
  | String _ rest => ends_with_slash rest
  end.

(** [mx.Mount(pattern, h)] registers [h] for every method under the wild
    card [base*], where [base] is the pattern with a slash at its end;
    for a pattern that has no slash at its end, also under the pattern
    itself and under the pattern followed by a slash. *)
Definition mount_base (pattern : string) : string :=
  if ends_with_slash pattern then pattern else pattern +:+ "/".

(** Whether the tree already has [pattern*] or [pattern/*], which only a
    mount has put there. *)
Definition mounted_on (earlier : list Entry) (pattern : string) : bool :=
  existsb (fun e =>
             match e with
             | Mount p _ _ =>
                 String.eqb (mount_base p) pattern
                 || String.eqb (mount_base p) (pattern +:+ "/")
             | Endpoint _ _ _ _ => false
             end) earlier.

(** What becomes of a series of registrations: chi takes them all, chi
    panics at one of them, or one of them is outside what is written out
    here. *)
Inductive Verdict : Type := Accepts | Panics | NotCovered.

Definition and_next (v : Verdict) (next : Verdict) : Verdict :=
  match v with
  | Accepts => next
  | other => other
  end.

(** One registration on a [Mux] that already holds [earlier]. The
    endpoints and mounts of a sub-router are registered on it before it
    is mounted. [handle] panics on a pattern that does not begin with a
    slash, [Mount] on a path that is mounted already. *)
Fixpoint replay_entry (earlier : list Entry) (e : Entry) {struct e} : Verdict :=
  match e with
  | Endpoint _ pattern _ _ =>
      if negb (plain pattern) then NotCovered
      else if begins_with_slash pattern then Accepts
      else Panics
  | Mount pattern _ sub =>
      and_next
        ((fix each (before rest : list Entry) {struct rest} : Verdict :=
            match rest with
            | [] => Accepts
            | e' :: rest' =>
                and_next (replay_entry before e') (each (before ++ [e']) rest')
            end) [] sub)
        (if negb (plain pattern) then NotCovered
         else if mounted_on earlier pattern then Panics
         else if begins_with_slash pattern then Accepts
         else Panics)
  end.

Fixpoint replay_from (before rest : list Entry) {struct rest} : Verdict :=
  match rest with
  | [] => Accepts
  | e :: rest' => and_next (replay_entry before e) (replay_from (before ++ [e]) rest')
  end.

Definition replay (mx : Mux) : Verdict := replay_from [] (tree mx).

(** The methods chi routes. *)
Definition methods : list string :=
  ["CONNECT"; "DELETE"; "GET"; "HEAD"; "OPTIONS"; "PATCH"; "POST"; "PUT"; "TRACE"].

(** [s] without the prefix, when it has it. *)
Fixpoint strip (prefix s : string) {struct prefix} : option string :=
  match prefix, s with
  | EmptyString, _ => Some s
  | String p prefix', String c s' => if Ascii.eqb c p then strip prefix' s' else None
  | String _ _, EmptyString => None
  end.

(** The entry wrote the node of [path] for the method [m]: an endpoint
    of that method and pattern, or a mount at [path] or at [path]
    without its last slash. *)
Definition exact (m path : string) (e : Entry) : bool :=
  match e with
  | Endpoint m' pattern _ _ => String.eqb m' m && String.eqb pattern path
  | Mount pattern _ _ =>
      negb (ends_with_slash pattern)
      && (String.eqb pattern path || String.eqb (pattern +:+ "/") path)
  end.

(** What is left of [path] after the base of a mount. *)
Definition under (path : string) (e : Entry) : option string :=
  match e with
  | Mount pattern _ _ => strip (mount_base pattern) path
  | Endpoint _ _ _ _ => None
  end.

(** The position of the last entry that satisfies [f], counted from [i]. *)
Fixpoint last_from (f : Entry -> bool) (i : nat) (l : list Entry) : option nat :=
  match l with
  | [] => None
  | e :: rest =>
      match last_from f (S i) rest with
      | Some k => Some k
      | None => if f e then Some i else None
      end
  end.

(** The mount with the longest base that [path] begins with: its
    position and what is left of the path. *)
Fixpoint deepest_from (path : string) (i : nat) (l : list Entry) : option (nat * string) :=
  match l with
  | [] => None
  | e :: rest =>
      match under path e, deepest_from path (S i) rest with
      | Some tail, Some (k, tail') =>
          if Nat.ltb (String.length tail) (String.length tail')
          then Some (i, tail) else Some (k, tail')
      | Some tail, None => Some (i, tail)
      | None, found => found
      end
  end.

(** The entry a tree hands a request to, and the path the entry's handler
    routes on: the node of the whole path when it has a handler for the
    method, the last registration winning; otherwise the wild card of the
    deepest mount, whose sub-router goes on with a slash and what the
    wild card matched. A mount reached through its own node routes on
    [/]. *)
Definition choose (l : list Entry) (m path : string) : option (nat * string) :=
  match last_from (exact m path) O l with
  | Some i => Some (i, "/")
  | None =>
      match deepest_from path O l with
      | Some (i, tail) => Some (i, "/" +:+ tail)
      | None => None
      end
  end.

(** Where a request ends: the handler and the middlewares it runs behind,
    outermost first. *)
Record Hit : Type := mkHit {
  hit_chain : list Middleware;
  hit_handler : option Handler
}.

(** The handler of an entry on a request of method [m] whose routing path
    is [routePath]. A sub-router that has no route for it answers 404:
    nothing outside the sub-router is tried. *)
Fixpoint find_entry (e : Entry) (m routePath : string) {struct e} : option Hit :=
  match e with
  | Endpoint _ _ inline h => Some {| hit_chain := inline; hit_handler := h |}
  | Mount _ st sub =>
      match choose sub m routePath with
      | None => None
      | Some (i, next) =>
          (fix at_position (l : list Entry) (k : nat) {struct l} : option Hit :=
             match l, k with
             | [], _ => None
             | e' :: _, O =>
                 match find_entry e' m next with
                 | Some hit =>
                     Some {| hit_chain := st ++ hit_chain hit;
                             hit_handler := hit_handler hit |}
                 | None => None
                 end
             | _ :: l', S k' => at_position l' k'
             end) sub i
      end
  end.

(** [mx.ServeHTTP] up to the handler, on a dispatcher that took every
    registration: the request of method [m] whose routing path is [path],
    which is the raw path of the URL when it has one and its path
    otherwise. [None] is chi's 404 or 405. *)
Definition find (mx : Mux) (m path : string) : option Hit :=
  if existsb (String.eqb m) methods
  then find_entry (Mount "" (stack mx) (tree mx)) m path
  else None.

(** The middlewares that [router.New] installs; they belong to
    chi/middleware, httprate and cors and are taken as given.
    [middleware.Throttle] panics for a limit below 1: [Throttle] stands
    for it on the other limits ([router.New_call]). *)
Record CorsOptions : Type := mkCorsOptions {
  CorsAllowedOrigins : list string;
  CorsAllowedMethods : list string;
  CorsAllowedHeaders : list string;
  CorsAllowCredentials : bool;
  CorsMaxAge : Z
}.

Record Stock : Type := mkStock {
  Logger : Middleware;
  Recoverer : Middleware;
  RequestID : Middleware;
  RealIP : Middleware;
  RequestSize : Z -> Middleware;
  Timeout : config.Duration -> Middleware;
  Throttle : Z -> Middleware;
  LimitByRealIP : Z -> config.Duration -> Middleware;
  CorsHandler : CorsOptions -> Middleware;
  SetHeader : string -> string -> Middleware
}.

End chi.

(** ** io.Writer, as [fmt.Fprintf] uses it *)

(** [Fprint w s] is the sink after the attempt to write [s], and the error
    the write returned, if any. *)
Class Writer (W : Type) : Type := Fprint : W -> string -> W * option string.

(** [bytes.Buffer]: every write is appended and none fails. *)
#[export] Instance Buffer_Writer : Writer string :=
  fun buf s => (buf +:+ s, None).

(** A sink that keeps every write as one entry and never fails. *)
#[export] Instance Lines_Writer : Writer (list string) :=
  fun log s => (log ++ [s], None).

(** A sink with room for [room] more bytes: a write that does not fit
    fails and leaves the sink as it was. *)
Record Limited : Type := mkLimited { room : nat; text : string }.

#[export] Instance Limited_Writer : Writer Limited :=
  fun w s =>
    if Nat.leb (String.length s) (room w)
    then ({| room := (room w - String.length s)%nat; text := text w +:+ s |}, None)
    else (w, Some "short write").

(** ** router/router.go *)

Module router.

Definition HTTPMethod : Type := string.

Definition GET : HTTPMethod := "GET".
Definition POST : HTTPMethod := "POST".
Definition PUT : HTTPMethod := "PUT".
Definition DELETE : HTTPMethod := "DELETE".
Definition Undefined : HTTPMethod := "Undefined".

Record requestInfo : Type := mkRequestInfo {
  method : HTTPMethod;
  route : string
}.

#[local] Unset Elimination Schemes.
Inductive RouteNode : Type := mkRouteNode {
  children : list RouteNode;
  info : requestInfo;
  middlewares : list Middleware;
  handler : option Handler
}.
#[local] Set Elimination Schemes.

(** [h == nil] for a function value. *)
Definition isNil (h : option Handler) : bool :=
  match h with None => true | Some _ => false end.

Definition set_children (n : RouteNode) (cs : list RouteNode) : RouteNode :=
  {| children := cs; info := info n; middlewares := middlewares n; handler := handler n |}.

(** [n.newRouteNode(method, pattern, handler)]: the receiver with the new
    node appended to its children, and the new node, to which the returned
    pointer refers. *)
Definition newRouteNode (n : RouteNode) (method : HTTPMethod) (pattern : string)
    (handler : option Handler) : RouteNode * RouteNode :=
  let newNode :=
    {| children := [];
       info := {| method := method; route := pattern |};
       middlewares := [];
       handler := handler |} in
  (set_children n (children n ++ [newNode]), newNode).

(** Calls made through the pointer that [newRouteNode] returned act on the
    last child of the receiver: [through f n] is [n] after [f] has run on
    that child. *)
Definition through (f : RouteNode -> RouteNode) (n : RouteNode) : RouteNode :=
  match rev (children n) with
  | newNode :: before => set_children n (rev before ++ [f newNode])
  | [] => n
  end.

Record routerWrapped : Type := mkRouterWrapped {
  internal : chi.Mux;
  routeTree : option (list RouteNode)
}.

(** [type RouteProvider interface]. *)
Record RouteProvider : Type := mkRouteProvider {
  RegisterRoutes : RouteNode -> config.Config -> RouteNode
}.

Record RoutingContext : Type := mkRoutingContext {
  Providers : list RouteProvider
}.

Definition New (lib : chi.Stock) (cfg : config.Config) : routerWrapped :=
  let chiRouter := chi.NewRouter in
  let chiRouter := chi.Use chiRouter
    [ chi.Logger lib;
      chi.Recoverer lib;
      chi.RequestID lib;
      chi.RealIP lib;
      chi.RequestSize lib (config.RequestSizeLimit (config.Server cfg));
      chi.Timeout lib (config.HandlerTimeout (config.Server cfg));
      chi.Throttle lib (config.ConnectionsLimit (config.Server cfg));
      chi.LimitByRealIP lib
        (config.PerIPLimit (config.RateLimit_ (config.Server cfg)))
        (config.ClearInterval (config.RateLimit_ (config.Server cfg)));
      chi.CorsHandler lib
        {| chi.CorsAllowedOrigins := config.AllowedOrigins (config.Server cfg);
           chi.CorsAllowedMethods := ["GET"; "POST"; "PUT"; "DELETE"];
           chi.CorsAllowedHeaders := ["Content-Type"; "Authorization"];
           chi.CorsAllowCredentials := false;
           chi.CorsMaxAge := 300 |};
      chi.SetHeader lib "X-Content-Type-Options" "nosniff";
      chi.SetHeader lib "X-Frame-Options" "DENY" ] in
  let routeTree :=
    [ {| children := [];
         info := {| method := Undefined; route := "" |};
         middlewares := [];
         handler := None |} ] in
  {| internal := chiRouter; routeTree := Some routeTree |}.

(** The call [New(cfg)]: [middleware.Throttle] panics for a limit below 1,
    before there is a wrapper; on every other configuration the call
    returns [New lib cfg]. *)
Definition New_call (lib : chi.Stock) (cfg : config.Config) : result routerWrapped :=
  if Z.ltb (config.ConnectionsLimit (config.Server cfg)) 1
  then Panic "chi/middleware: Throttle expects limit > 0"
  else Ok (New lib cfg).

Definition GetHTTPHandler (r : routerWrapped) : chi.Mux := internal r.

Definition ClearRouteTree (r : routerWrapped) : routerWrapped :=
  {| internal := internal r; routeTree := None |}.

Definition nl : string := String (ascii_of_nat 10) EmptyString.

(** The text of the format ["  %s %s\n"] for a method and a path. *)
Definition route_line (m : HTTPMethod) (path : string) : string :=
  "  " +:+ m +:+ " " +:+ path +:+ nl.

(** [fmt.Fprintf(writer, "  %s %s\n", method, path)]. *)
Definition Fprintf_route `{Writer W} (writer : W) (m : HTTPMethod) (path : string)
    : W * option string :=
  Fprint writer (route_line m path).

Fixpoint writeRoute `{Writer W} (r : routerWrapped) (writer : W) (node : RouteNode)
    (basePath : string) {struct node} : W :=
  let currentPath := basePath +:+ route (info node) in
  let '(writer, err) :=
    if negb (isNil (handler node))
       && negb (String.eqb (method (info node)) Undefined)
    then Fprintf_route writer (method (info node)) currentPath
    else (writer, None) in
  match err with
  | Some _ => writer
  | None =>
      fold_left (fun writer child => writeRoute r writer child currentPath)
                (children node) writer
  end.

Definition WriteRoutes `{Writer W} (r : routerWrapped) (writer : W)
    : result (routerWrapped * W) :=
  match routeTree r with
  | None => Panic "runtime error: invalid memory address or nil pointer dereference"
  | Some [] => Panic "runtime error: index out of range [0] with length 0"
  | Some (root :: _) => Ok (r, writeRoute r writer root "")
  end.

Definition registerMethodWithMiddleware (r : routerWrapped) (node : RouteNode)
    (methodFunc : chi.Router -> string -> option Handler -> chi.Mux)
    (path : string) : routerWrapped :=
  let router := chi.AsRouter (internal r) in
  let router :=
    if Nat.ltb 0 (length (middlewares node))
    then chi.With router (middlewares node)
    else router in
  {| internal := methodFunc router path (handler node);
     routeTree := routeTree r |}.

Fixpoint registerWithChi (r : routerWrapped) (node : RouteNode) (basePath : string)
    {struct node} : routerWrapped :=
  let currentPath := basePath +:+ route (info node) in
  if String.eqb (method (info node)) Undefined
     && isNil (handler node)
     && Nat.ltb 0 (length (children node))
     && Nat.ltb 0 (String.length currentPath)
  then
    {| internal :=
         chi.Route (internal r) currentPath (fun subrouter =>
           let subWrapper := {| internal := subrouter; routeTree := None |} in
           internal
             (fold_left (fun subWrapper child => registerWithChi subWrapper child "")
                        (children node) subWrapper));
       routeTree := routeTree r |}
  else
    match handler node with
    | Some _ =>
        if String.eqb (method (info node)) GET then
          registerMethodWithMiddleware r node chi.Get currentPath
        else if String.eqb (method (info node)) POST then
          registerMethodWithMiddleware r node chi.Post currentPath
        else if String.eqb (method (info node)) PUT then
          registerMethodWithMiddleware r node chi.Put currentPath
        else if String.eqb (method (info node)) DELETE then
          registerMethodWithMiddleware r node chi.Delete currentPath
        else r
    | None =>
        fold_left (fun r child => registerWithChi r child currentPath)
                  (children node) r
    end.

Definition Route (n : RouteNode) (pattern : string) (f : RouteNode -> RouteNode)
    : RouteNode :=
  through f (fst (newRouteNode n Undefined pattern None)).

Definition With (n : RouteNode) (mws : list Middleware) : RouteNode :=
  {| children := children n;
     info := info n;
     middlewares := middlewares n ++ mws;
     handler := handler n |}.

Definition Get (n : RouteNode) (pattern : string) (f : option Handler) :=
  newRouteNode n GET pattern f.

Definition Post (n : RouteNode) (pattern : string) (f : option Handler) :=
  newRouteNode n POST pattern f.

Definition Put (n : RouteNode) (pattern : string) (f : option Handler) :=
  newRouteNode n PUT pattern f.

Definition Delete (n : RouteNode) (pattern : string) (f : option Handler) :=
  newRouteNode n DELETE pattern f.

(** The handler of the health route, the function literal in [SetupRoutes]. *)
Definition healthHandler : Handler :=
  fun w _ =>
    utils.RespondWithJSON w Http.StatusOK true
      (Some (JObject [("status", JString "healthy")])) "".

Definition version : string := "v1".
Definition apiRoot : string := "/api" +:+ "/" +:+ version.

Definition SetupRoutes (r : routerWrapped) (context : RoutingContext)
    (cfg : config.Config) : result routerWrapped :=
  match routeTree r with
  | None => Panic "runtime error: invalid memory address or nil pointer dereference"
  | Some [] => Panic "runtime error: index out of range [0] with length 0"
  | Some (root :: rest) =>
      let root :=
        Route root apiRoot (fun n =>
          fold_left (fun n providers => RegisterRoutes providers n cfg)
                    (Providers context) n) in
      let root := fst (Get root "/health" (Some healthHandler)) in
      Ok (registerWithChi
            {| internal := internal r; routeTree := Some (root :: rest) |}
            root "")
  end.

End router.

(** ** Calls that may end the process *)

(** A call to a Go function with an [error] result whose body may also
    reach [log.Fatal]: it returned a value and a nil error, it returned an
    error, or it logged a message and exited. *)
Inductive outcome (A : Type) : Type :=
| Returned (a : A)
| Failed (err : string)
| Exited (msg : string).
Arguments Returned {A} a.
Arguments Failed {A} err.
Arguments Exited {A} msg.

Definition and_then {A B : Type} (x : outcome A) (k : A -> outcome B) : outcome B :=
  match x with
  | Returned a => k a
  | Failed err => Failed err
  | Exited msg => Exited msg
  end.

#[export] Instance outcome_bind : MBind outcome := fun A B k x => and_then x k.

(** [utils.Must] (utils/helpers.go): an error is logged and the process
    exits. *)
Definition Must {A : Type} (call : outcome A) : outcome A :=
  match call with
  | Failed err => Exited err
  | other => other
  end.

(** ** strconv and strings, as config.go uses them *)

Module strconv.

(** [strconv.ParseBool]. *)
Definition ParseBool (s : string) : option bool :=
  if existsb (String.eqb s) ["1"; "t"; "T"; "TRUE"; "true"; "True"] then Some true
  else if existsb (String.eqb s) ["0"; "f"; "F"; "FALSE"; "false"; "False"] then Some false
  else None.

Definition digit (c : ascii) : option Z :=
  let n := Z.of_N (N_of_ascii c) in
  if Z.leb 48 n && Z.leb n 57 then Some (n - 48) else None.

Fixpoint digits (acc : Z) (s : string) : option Z :=
  match s with
  | EmptyString => Some acc
  | String c s' =>
      match digit c with
      | Some d => digits (acc * 10 + d) s'
      | None => None
      end
  end.

(** [strconv.Atoi] on a 64-bit platform: an optional sign and at least
    one decimal digit, nothing else, and a value that fits in an [int];
    [None] is a syntax or range error. *)
Definition Atoi (s : string) : option Z :=
  let '(negative, body) :=
    match s with
    | String "-" rest => (true, rest)
    | String "+" rest => (false, rest)
    | _ => (false, s)
    end in
  match body with
  | EmptyString => None
  | _ =>
      match digits 0 body with
      | Some n =>
          let z := if negative then - n else n in
          if Z.leb (- 2 ^ 63) z && Z.ltb z (2 ^ 63) then Some z else None
      | None => None
      end
  end.

End strconv.

Module strings.

(** [strings.Split(s, ",")] for a one-byte separator: the pieces between
    the separators, at least one. *)
Fixpoint Split (s : string) (sep : ascii) : list string :=
  match s with
  | EmptyString => [""]
  | String c s' =>
      if Ascii.eqb c sep then "" :: Split s' sep
      else match Split s' sep with
           | piece :: pieces => String c piece :: pieces
           | [] => [String c ""]
           end
  end.

(** White space as Unicode defines it, each code point in UTF-8. *)
Definition white_space : list (list nat) :=
  ([ [9]; [10]; [11]; [12]; [13]; [32];
    [194; 133]; [194; 160]; [225; 154; 128];
    [226; 128; 128]; [226; 128; 129]; [226; 128; 130]; [226; 128; 131];
    [226; 128; 132]; [226; 128; 133]; [226; 128; 134]; [226; 128; 135];
    [226; 128; 136]; [226; 128; 137]; [226; 128; 138];
    [226; 128; 168]; [226; 128; 169]; [226; 128; 175]; [226; 129; 159];
    [227; 128; 128] ])%nat.

Definition code (bs : list nat) : list ascii := map ascii_of_nat bs.

Fixpoint starts_with (s prefix : list ascii) : option (list ascii) :=
  match prefix, s with
  | [], _ => Some s
  | p :: prefix', c :: s' => if Ascii.eqb c p then starts_with s' prefix' else None
  | _ :: _, [] => None
  end.

(** The rest of [s] after one leading white-space code point, if it
    begins with one. *)
Fixpoint after_space (s : list ascii) (codes : list (list ascii)) : option (list ascii) :=
  match codes with
  | [] => None
  | cd :: codes' =>
      match starts_with s cd with
      | Some rest => Some rest
      | None => after_space s codes'
      end
  end.

Fixpoint trim_left (fuel : nat) (s : list ascii) (codes : list (list ascii)) : list ascii :=
  match fuel with
  | O => s
  | S fuel' =>
      match after_space s codes with
      | Some rest => trim_left fuel' rest codes
      | None => s
      end
  end.

(** [strings.TrimSpace]: leading white space goes, then trailing white
    space, read from the end. *)
Definition TrimSpace (s : string) : string :=
  let bytes := list_ascii_of_string s in
  let left := trim_left (length bytes) bytes (map code white_space) in
  let right :=
    rev (trim_left (length left) (rev left) (map (fun bs => rev (code bs)) white_space)) in
  string_of_list_ascii right.

End strings.

(** ** config/config.go: reading the environment *)

Module configenv.

(** The process environment. *)
Abbreviation Env := (gmap string string).

(** [os.Getenv]: the empty string for a variable that is not set. *)
Definition Getenv (env : Env) (key : string) : string :=
  match env !! key with
  | Some value => value
  | None => ""
  end.

(** [godotenv.Load()] given what reading [.env] produced, an error or the
    variables of the file: a variable of the file is set unless the
    environment already has it. *)
Definition godotenv_Load (env : Env) (dotenv : string + Env) : Env * option string :=
  match dotenv with
  | inl err => (env, Some err)
  | inr vars => (env ∪ vars, None)
  end.

(** [os.ReadFile] over the files that exist. *)
Definition ReadFile (files : gmap string string) (path : string) : outcome string :=
  match files !! path with
  | Some contents => Returned contents
  | None => Failed ("open " +:+ path +:+ ": no such file or directory")
  end.

Definition getEnv (env : Env) (key defaultValue : string) : string :=
  let value := Getenv env key in
  if negb (String.eqb value "") then value else defaultValue.

Definition getEnvWithoutDefault (env : Env) (key : string) : outcome string :=
  let value := Getenv env key in
  if String.eqb value "" then
    Failed ("required environment variable " +:+ key +:+ " is not set")
  else Returned value.

Definition getBoolEnv (env : Env) (key : string) (defaultValue : bool) : outcome bool :=
  let value := Getenv env key in
  if negb (String.eqb value "") then
    match strconv.ParseBool value with
    | None => Exited ("Invalid boolean value for " +:+ key +:+ ": " +:+ value)
    | Some parsed => Returned parsed
    end
  else Returned defaultValue.

Definition getIntEnv (env : Env) (key : string) (defaultValue : Z) : outcome Z :=
  let value := Getenv env key in
  if negb (String.eqb value "") then
    match strconv.Atoi value with
    | None => Exited ("Invalid integer value for " +:+ key +:+ ": " +:+ value)
    | Some parsed => Returned parsed
    end
  else Returned defaultValue.

Definition getSliceEnv (env : Env) (key : string) (defaultValue : list string)
    : list string :=
  let value := Getenv env key in
  if negb (String.eqb value "") then
    let parts := strings.Split value "," in
    map strings.TrimSpace parts
  else defaultValue.

Definition validate (c : config.Config) : option string := None.

(** A product of two [int64], wrapping around. *)
Definition mul64 (a b : Z) : Z := (a * b + 2 ^ 63) mod 2 ^ 64 - 2 ^ 63.

(** [Load]: the environment as [godotenv.Load] leaves it, and the
    configuration. The calls of the struct literal run in the order they
    are written. *)
Definition Load (env : Env) (dotenv : string + Env) : Env * outcome config.Config :=
  match godotenv_Load env dotenv with
  | (env, Some err) => (env, Failed ("error loading .env file: " +:+ err))
  | (env, None) =>
      (env,
       let port := getEnv env "PORT" "8080" in
       path ← Must (getEnvWithoutDefault env "DB_PATH");
       walMode ← getBoolEnv env "DB_WAL_MODE" true;
       timeoutSecs ← getIntEnv env "DB_TIMEOUT" 30;
       maxOpenConns ← getIntEnv env "DB_MAX_OPEN_CONNS" 5;
       maxIdleConns ← getIntEnv env "DB_MAX_IDLE_CONNS" 2;
       key ← Must (getEnvWithoutDefault env "API_KEY");
       let allowedOrigins := getSliceEnv env "ALLOWED_ORIGINS" [] in
       connectionsLimit ← getIntEnv env "CONNECTIONS_LIMIT" 100;
       perIPLimit ← getIntEnv env "RATE_LIMIT" 10;
       clearSecs ← getIntEnv env "RATE_LIMIT_CLEAR_INTERVAL_SECS" 60;
       let config :=
         {| config.Port := port;
            config.Database :=
              {| config.Path := path;
                 config.WALMode := walMode;
                 config.TimeoutSecs := timeoutSecs;
                 config.MaxOpenConns := maxOpenConns;
                 config.MaxIdleConns := maxIdleConns |};
            config.API := {| config.Key := key |};
            config.Server :=
              {| config.AllowedOrigins := allowedOrigins;
                 config.ConnectionsLimit := connectionsLimit;
                 config.RateLimit_ :=
                   {| config.PerIPLimit := perIPLimit;
                      config.ClearInterval := mul64 clearSecs config.Second |};
                 config.RequestSizeLimit := 1024 * 10;
                 config.ReadTimeout := 10 * config.Second;
                 config.WriteTimeout := 20 * config.Second;
                 config.IdleTimeout := 60 * config.Second;
                 config.HandlerTimeout := 25 * config.Second |} |} in
       match validate config with
       | Some err => Failed err
       | None => Returned config
       end)
  end.

Definition readFileFromEnvPath (env : Env) (files : gmap string string)
    (envPath : string) : outcome string :=
  relativeFilePath ← Must (getEnvWithoutDefault env envPath);
  fileContents ← Must (ReadFile files relativeFilePath);
  Returned fileContents.

End configenv.

(** ** database/sql, as the database package uses it *)

Module sql.

(** A [sql.DB] handle together with what is behind it. [Open], [Exec],
    [Ping] and [Close] give the new state and the error ([None] for nil);
    the three setters have no result. Before [Open] the state is that of
    the driver and of the file the handle is going to stand for. *)
Class DB (D : Type) : Type := {
  Open : D -> string -> string -> D * option string;
  Exec : D -> string -> D * option string;
  SetConnMaxLifetime : D -> config.Duration -> D;
  SetMaxOpenConns : D -> Z -> D;
  SetMaxIdleConns : D -> Z -> D;
  Ping : D -> D * option string;
  Close : D -> D * option string
}.

End sql.

(** ** The database package (after main.go in the source file) *)

Module database.

Definition tab : string := String (ascii_of_nat 9) EmptyString.

(** The raw string literal of [initSchema], byte for byte. *)
Definition schema : string :=
  router.nl +:+
  tab +:+ "CREATE TABLE IF NOT EXISTS blog_posts (" +:+ router.nl +:+
  tab +:+ tab +:+ "id INTEGER PRIMARY KEY AUTOINCREMENT," +:+ router.nl +:+
  tab +:+ tab +:+ "content TEXT NOT NULL," +:+ router.nl +:+
  "        tags TEXT NOT NULL," +:+ router.nl +:+
  tab +:+ tab +:+ "published_at DATETIME NOT NULL," +:+ router.nl +:+
  tab +:+ tab +:+ "updated_at DATETIME NOT NULL" +:+ router.nl +:+
  tab +:+ ");" +:+ router.nl +:+
  router.nl +:+
  tab +:+ "CREATE INDEX IF NOT EXISTS idx_blog_posts_published_at ON blog_posts(published_at);" +:+ router.nl +:+
  tab.

Section WithDB.
Context {D : Type} `{!sql.DB D}.

(** A [SQLiteDB] is its [db] field: the state of the handle. A call
    gives the state it leaves and the error it returns. *)
Definition initSchema (s : D) : D * option string :=
  let '(s, err) := sql.Exec s schema in
  match err with
  | Some _ => (s, Some "failed to initialize schema")
  | None => (s, None)
  end.

(** The slice [pragmas] of [NewSQLiteDB]. [%d] prints the wrapped
    product. *)
Definition pragmas (cfg : config.Config) : list string :=
  let timeoutMS := configenv.mul64 (config.TimeoutSecs (config.Database cfg)) 1000 in
  let pragmas :=
    [ "PRAGMA foreign_keys=ON;";
      "PRAGMA busy_timeout=" +:+ pretty timeoutMS +:+ ";" ] in
  if config.WALMode (config.Database cfg)
  then pragmas ++
       [ "PRAGMA journal_mode=WAL;";
         "PRAGMA synchronous=NORMAL;";
         "PRAGMA cache_size=1000;";
         "PRAGMA temp_store=memory;" ]
  else pragmas.

(** The loop over [pragmas]: the first error ends it. *)
Fixpoint exec_each (db : D) (pragmas : list string) : D * option string :=
  match pragmas with
  | [] => (db, None)
  | pragma :: rest =>
      let '(db, err) := sql.Exec db pragma in
      match err with
      | Some e => (db, Some e)
      | None => exec_each db rest
      end
  end.

(** [NewSQLiteDB]. With an error the result is Go's [nil, err] and the
    state is that of a handle nobody holds any more; with [None] the
    state is the [db] of the returned [SQLiteDB]. *)
Definition NewSQLiteDB (world : D) (cfg : config.Config) : D * option string :=
  let '(db, err) := sql.Open world "sqlite3" (config.Path (config.Database cfg)) in
  match err with
  | Some _ => (db, Some "database connection failed")
  | None =>
      let '(db, err) := exec_each db (pragmas cfg) in
      match err with
      | Some _ => (db, Some "failed to set SQLite PRAGMA settings")
      | None =>
          let db :=
            sql.SetConnMaxLifetime db
              (configenv.mul64 (config.TimeoutSecs (config.Database cfg)) config.Second) in
          let db := sql.SetMaxOpenConns db (config.MaxOpenConns (config.Database cfg)) in
          let db := sql.SetMaxIdleConns db (config.MaxIdleConns (config.Database cfg)) in
          let '(db, err) := sql.Ping db in
          match err with
          | Some _ => (db, Some "failed to ping database")
          | None =>
              let sqlite := db in
              let '(sqlite, err) := initSchema sqlite in
              match err with
              | Some err => (sqlite, Some err)
              | None => (sqlite, None)
              end
          end
      end
  end.

Definition Close (s : D) : D * option string := sql.Close s.

Definition GetDB (s : D) : D := s.

End WithDB.

End database.

(** * Reading a route tree

    The notions the properties below are stated with. *)

Import router.

(** The methods the materializer has a case for. *)
Definition is_verb (m : HTTPMethod) : bool :=
  String.eqb m GET || String.eqb m POST || String.eqb m PUT || String.eqb m DELETE.

(** Plain concatenation of path segments, in order. *)
Fixpoint join (segs : list string) : string :=
  match segs with
  | [] => ""
  | s :: rest => s +:+ join rest
  end.

(** [path_via P n segs d]: [d] is [n] or lies below it, [segs] are the
    path segments from [n] down to [d], both included, and every node
    passed on the way down (every proper ancestor of [d] from [n] on)
    satisfies [P]. *)
Inductive path_via (P : RouteNode -> Prop) : RouteNode -> list string -> RouteNode -> Prop :=
| path_here (n : RouteNode) :
    path_via P n [route (info n)] n
| path_below (n c : RouteNode) (segs : list string) (d : RouteNode) :
    P n -> In c (children n) -> path_via P c segs d ->
    path_via P n (route (info n) :: segs) d.

(** A node without a handler: a grouping node. *)
Definition grouping (n : RouteNode) : Prop := handler n = None.

Definition any_node (n : RouteNode) : Prop := True.

(** A node with no children, as [newRouteNode] creates it. *)
Definition leaf (m : HTTPMethod) (pattern : string) (h : option Handler) : RouteNode :=
  {| children := [];
     info := {| method := m; route := pattern |};
     middlewares := [];
     handler := h |}.

(** The root that [New] creates. *)
Definition root0 : RouteNode := leaf Undefined "" None.

(** The pairs [writeRoute] prints when no write fails, in order. *)
Fixpoint listing (node : RouteNode) (basePath : string) : list (HTTPMethod * string) :=
  let currentPath := basePath +:+ route (info node) in
  (if negb (isNil (handler node)) && negb (String.eqb (method (info node)) Undefined)
   then [(method (info node), currentPath)] else [])
  ++ flat_map (fun child => listing child currentPath) (children node).

(** What [registerWithChi] adds to the tree of the dispatcher. *)
Fixpoint emitted (node : RouteNode) (basePath : string) : list chi.Entry :=
  let currentPath := basePath +:+ route (info node) in
  if String.eqb (method (info node)) Undefined
     && isNil (handler node)
     && Nat.ltb 0 (length (children node))
     && Nat.ltb 0 (String.length currentPath)
  then [chi.Mount currentPath [] (flat_map (fun child => emitted child "") (children node))]
  else
    match handler node with
    | Some _ =>
        if is_verb (method (info node))
        then [chi.Endpoint (method (info node)) currentPath (middlewares node) (handler node)]
        else []
    | None => flat_map (fun child => emitted child currentPath) (children node)
    end.

(** The registration a handler-carrying node [d] gets below the segments
    [segs], on a dispatcher whose [Use] stack is [scope]. *)
Definition registration_for (scope : list Middleware) (path : string) (d : RouteNode)
    : chi.Registration :=
  {| chi.reg_method := method (info d);
     chi.reg_path := path;
     chi.reg_chain := scope ++ middlewares d;
     chi.reg_handler := handler d |}.

(** ** Sample values *)

Definition pass_on : Middleware := fun next => next.

Definition sample_stock : chi.Stock :=
  {| chi.Logger := pass_on;
     chi.Recoverer := pass_on;
     chi.RequestID := pass_on;
     chi.RealIP := pass_on;
     chi.RequestSize := fun _ => pass_on;
     chi.Timeout := fun _ => pass_on;
     chi.Throttle := fun _ => pass_on;
     chi.LimitByRealIP := fun _ _ => pass_on;
     chi.CorsHandler := fun _ => pass_on;
     chi.SetHeader := fun _ _ => pass_on |}.

(** The settings [config.Load] gives when the environment only sets the
    two required variables. *)
Definition sample_config : config.Config :=
  {| config.Port := "8080";
     config.Database :=
       {| config.Path := "stund.db"; config.WALMode := true;
          config.TimeoutSecs := 30; config.MaxOpenConns := 5;
          config.MaxIdleConns := 2 |};
     config.API := {| config.Key := "s3cret" |};
     config.Server :=
       {| config.AllowedOrigins := [];
          config.ConnectionsLimit := 100;
          config.RateLimit_ :=
            {| config.PerIPLimit := 10; config.ClearInterval := 60 * config.Second |};
          config.RequestSizeLimit := 1024 * 10;
          config.ReadTimeout := 10 * config.Second;
          config.WriteTimeout := 20 * config.Second;
          config.IdleTimeout := 60 * config.Second;
          config.HandlerTimeout := 25 * config.Second |} |}.

Definition no_providers : RoutingContext := {| Providers := [] |}.

(** The 401 answer of the auth interceptor with a given message. *)
Definition deny (w : Http.ResponseWriter) (msg : string) : Http.ResponseWriter :=
  utils.RespondWithJSON w Http.StatusUnauthorized false None msg.

(** The envelope of the health route. *)
Definition health_envelope : JSON :=
  JObject [("success", JBool true); ("data", JObject [("status", JString "healthy")])].

(** A handler that answers 200 with an empty object. *)
Definition ok_handler : Handler :=
  fun w _ => utils.RespondWithJSON w Http.StatusOK true (Some (JObject [])) "".

Definition bare_request (hdr : Http.Header) : Http.Request :=
  {| Http.Method := "GET"; Http.Path := "/"; Http.ReqHeader := hdr;
     Http.RemoteAddr := "192.0.2.1:4711"; Http.Body := Http.BodyOf "" |}.

Definition bare_router : routerWrapped :=
  {| internal := chi.NewRouter; routeTree := None |}.

(** [root.Route("/a", ... n.Route("/b", ... n.Get("/c", h)))]. *)
Definition tree_abc : RouteNode :=
  Route root0 "/a" (fun n =>
    Route n "/b" (fun n => fst (Get n "/c" (Some ok_handler)))).



(** [n.Get("/a", h).Get("/b", h)], seen from the node of [/a]. *)
Definition node_a_with_child : RouteNode :=
  fst (Get (leaf GET "/a" (Some ok_handler)) "/b" (Some ok_handler)).

(** [root.Get("/a", h).Get("/b", h)]: a route declared below a route. *)
Definition tree_nested_handlers : RouteNode :=
  through (fun a => fst (Get a "/b" (Some ok_handler)))
          (fst (Get root0 "/a" (Some ok_handler))).

(** A feature module with one route. *)
Definition sample_provider : RouteProvider :=
  {| RegisterRoutes := fun n _ => fst (Get n "/posts" (Some ok_handler)) |}.

(** A group whose callback attaches the auth interceptor to the group. *)
Definition tree_guarded_group : RouteNode :=
  Route root0 "/admin" (fun n =>
    fst (Get (With n [utils.MiddlewareAPIAuth "s3cret"]) "/x" (Some ok_handler))).

(** The same group with the interceptor attached to the route instead:
    [n.Get("/x", h).With(auth)]. *)
Definition tree_guarded_route : RouteNode :=
  Route root0 "/admin" (fun n =>
    through (fun x => With x [utils.MiddlewareAPIAuth "s3cret"])
            (fst (Get n "/x" (Some ok_handler)))).

(** The values of a byte. *)
Definition is_byte (z : Z) : Prop := 0 <= z < 256.

(** Every node with a handler, in the whole tree, has one of the four
    methods. *)
Definition handlers_have_verbs (n : RouteNode) : Prop :=
  forall segs d, path_via any_node n segs d -> isNil (handler d) = false ->
                 is_verb (method (info d)) = true.

(** ** Decoding: unknown fields *)

(** [unknown_in t v]: decoding [v] into a value of type [t] meets an
    object key that names no field of the struct it is decoded into, at
    the top or further in. *)
Inductive unknown_in `{json.Lexical} : json.GoType -> JSON -> Prop :=
| unknown_here fields members key x :
    In (key, x) members ->
    json.find_field key fields = None ->
    unknown_in (json.TStruct fields) (JObject members)
| unknown_below fields members key x ft :
    In (key, x) members ->
    json.find_field key fields = Some ft ->
    unknown_in ft x ->
    unknown_in (json.TStruct fields) (JObject members)
| unknown_item elem items x :
    In x items ->
    unknown_in elem x ->
    unknown_in (json.TSlice elem) (JArray items).

(** What [unmarshal] does with one member of an object, and with all. *)
Definition member_error `{json.Lexical} (strict : bool) (fields : list (string * json.GoType))
    (kx : string * JSON) : option json.Error :=
  match json.find_field (fst kx) fields with
  | Some ft => json.unmarshal strict ft (snd kx)
  | None => if strict then Some (json.UnknownField (fst kx)) else None
  end.

Fixpoint each_member `{json.Lexical} (strict : bool) (fields : list (string * json.GoType))
    (l : list (string * JSON)) : option json.Error :=
  match l with
  | [] => None
  | kx :: l' => json.first_error (member_error strict fields kx) (each_member strict fields l')
  end.

Fixpoint each_item `{json.Lexical} (strict : bool) (elem : json.GoType) (l : list JSON)
    : option json.Error :=
  match l with
  | [] => None
  | x :: l' => json.first_error (json.unmarshal strict elem x) (each_item strict elem l')
  end.

(** The scanner on a few JSON texts, each listed with the value it
    holds, and on bodies of white space; it stands for the tokenizer on
    these bodies only, and on field names that differ in more than the
    case of their letters. *)
Definition table_lexical (table : list (string * JSON)) : json.Lexical :=
  {| json.scan := fun s _ =>
       if negb (json.nonSpace s) then json.NeedMore
       else match List.find (fun e => String.eqb s (fst e)) table with
            | Some e => json.Complete (snd e)
            | None => json.SyntaxError "invalid character"
            end;
     json.EqualFold := String.eqb |}.

(** A double quote, and a JSON string literal without escapes. *)
Definition dq : string := String (ascii_of_nat 34) EmptyString.

Definition quoted (s : string) : string := dq +:+ s +:+ dq.

Definition contact_schema : json.GoType :=
  json.TStruct [("name", json.TString); ("email", json.TString)].

Definition contact_ok : JSON :=
  JObject [("name", JString "Ada"); ("email", JString "ada@example.org")].

Definition contact_extra : JSON :=
  JObject [("name", JString "Ada"); ("email", JString "ada@example.org");
           ("admin", JBool true)].

(** The JSON texts of the two values. *)
Definition contact_ok_body : string :=
  "{" +:+ quoted "name" +:+ ":" +:+ quoted "Ada" +:+ ","
  +:+ quoted "email" +:+ ":" +:+ quoted "ada@example.org" +:+ "}".

Definition contact_extra_body : string :=
  "{" +:+ quoted "name" +:+ ":" +:+ quoted "Ada" +:+ ","
  +:+ quoted "email" +:+ ":" +:+ quoted "ada@example.org" +:+ ","
  +:+ quoted "admin" +:+ ":true}".

Definition contact_bodies : list (string * JSON) :=
  [(contact_ok_body, contact_ok); (contact_extra_body, contact_extra)].

Definition request_with_body (body : string) : Http.Request :=
  {| Http.Method := "POST"; Http.Path := "/"; Http.ReqHeader := ∅;
     Http.RemoteAddr := "192.0.2.1:4711"; Http.Body := Http.BodyOf body |}.

(** ** Registrations in order *)

(** The registrations a node gives rise to, depth first and in the order
    of the children, on a dispatcher whose [Use] stack is [scope]: a node
    with a handler gives its own and nothing from below it, a node without
    one gives those of its children. *)
Fixpoint served (scope : list Middleware) (node : RouteNode) (basePath : string)
    : list chi.Registration :=
  let currentPath := basePath +:+ route (info node) in
  match handler node with
  | Some _ =>
      if is_verb (method (info node))
      then [registration_for scope currentPath node]
      else []
  | None => flat_map (fun child => served scope child currentPath) (children node)
  end.

(** Whether a write came back with an error. *)
Definition failed (err : option string) : bool :=
  match err with Some _ => true | None => false end.

(** A sink that also keeps the writes that were attempted on it, each
    with whether it failed. *)
#[export] Instance Recording_Writer `{Writer W} : Writer (W * list (string * bool)) :=
  fun wl s =>
    let '(w', err) := Fprint (fst wl) s in
    ((w', snd wl ++ [(s, failed err)]), err).

(** A node that [writeRoute] prints a line for. *)
Definition printed (d : RouteNode) : Prop :=
  isNil (handler d) = false /\ method (info d) <> Undefined.

(** ** Segments the dispatcher takes as they are *)

(** A path segment of the expected form: a slash first, no slash last,
    no [{] and no [*]. *)
Definition clean (seg : string) : bool :=
  chi.begins_with_slash seg && negb (chi.ends_with_slash seg) && chi.plain seg.

(** Every segment of the tree is empty or clean. *)
Definition clean_tree (n : RouteNode) : Prop :=
  forall segs d, path_via any_node n segs d ->
                 route (info d) = "" \/ clean (route (info d)) = true.

(** [n.Route(s1, ... n.Route(sk, add))]: the groups of the segments, one in
    the other, around what [add] declares in the innermost. *)
Fixpoint grouped (segs : list string) (add : RouteNode -> RouteNode) (n : RouteNode)
    : RouteNode :=
  match segs with
  | [] => add n
  | seg :: rest => Route n seg (grouped rest add)
  end.

(** The receiver after [n.newRouteNode(m, p, h)], which is [n.Get(p, h)]
    for [GET], [n.Post(p, h)] for [POST] and so on. *)
Definition declare (m : HTTPMethod) (p : string) (h : Handler) (n : RouteNode) : RouteNode :=
  fst (newRouteNode n m p (Some h)).


(** A path that is empty, or begins with a slash and does not end with
    one: what a series of clean segments comes to. *)
Definition tidy (s : string) : Prop :=
  s = "" \/ (chi.begins_with_slash s = true /\ chi.ends_with_slash s = false).

(** The entry [chi.choose] picks was written for the request: for the
    node of its whole path, or as the mount under which the path lies. *)
Definition selected (m path next : string) (e : chi.Entry) : Prop :=
  (chi.exact m path e = true /\ next = "/")
  \/ (exists tail, chi.under path e = Some tail /\ next = "/" +:+ tail).



(** Two groups at one path. *)
Definition tree_two_groups : RouteNode :=
  Route (Route root0 "/a" (fun n => fst (Get n "/x" (Some ok_handler)))) "/a"
        (fun n => fst (Get n "/y" (Some ok_handler))).

(** [root.Get("/a", h)] followed by [root.Route("/a", ... n.Get("/x", h))]. *)
Definition tree_route_then_group : RouteNode :=
  Route (fst (Get root0 "/a" (Some ok_handler))) "/a"
        (fun n => fst (Get n "/x" (Some ok_handler))).

(** The answer of the dispatcher with the given [Use] stack that routes
    to the handler of [d]. *)
Definition hit_for (scope : list Middleware) (d : RouteNode) : chi.Hit :=
  {| chi.hit_chain := scope ++ middlewares d; chi.hit_handler := handler d |}.

(** ** main.go: from [config.Load] to [writer.Flush()]

    The statements of [main] up to the start of the server, on the
    process environment, what reading [.env] gives and the database
    behind the handle. [Must] ends the process on an error, [router.New]
    panics on a connection limit below 1, and the list of feature modules
    is the empty one of the source. The [bufio.Writer] over a
    [bytes.Buffer] is the buffer itself, which after [Flush] holds
    everything that was written. The value is the environment and the
    database as [main] leaves them and, when the server is about to start,
    the wrapper and the text that [main] goes on to log. *)
Definition main_start {D : Type} `{!sql.DB D} (lib : chi.Stock) (env : configenv.Env)
    (dotenv : string + configenv.Env) (world : D)
    : configenv.Env * D * result (outcome (routerWrapped * string)) :=
  let '(env, loaded) := configenv.Load env dotenv in
  match Must loaded with
  | Failed err => (env, world, Ok (Failed err))
  | Exited msg => (env, world, Ok (Exited msg))
  | Returned cfg =>
      let '(db, err) := database.NewSQLiteDB world cfg in
      match Must (match err with Some e => Failed e | None => Returned db end) with
      | Failed err => (env, db, Ok (Failed err))
      | Exited msg => (env, db, Ok (Exited msg))
      | Returned db =>
          match New_call lib cfg with
          | Panic msg => (env, db, Panic msg)
          | Ok r =>
              match SetupRoutes r {| Providers := [] |} cfg with
              | Panic msg => (env, db, Panic msg)
              | Ok r =>
                  let port := ":" +:+ config.Port cfg in
                  let buf := "" in
                  let '(writer, _) :=
                    Fprint buf ("✅ Starting HTTP server on port " +:+ port +:+ nl) in
                  match WriteRoutes r writer with
                  | Panic msg => (env, db, Panic msg)
                  | Ok (r, writer) =>
                      let r := ClearRouteTree r in
                      (env, db, Ok (Returned (r, writer)))
                  end
              end
          end
      end
  end.

(** The registration of the health route on a dispatcher with the given
    [Use] stack. *)
Definition health_registration (scope : list Middleware) : chi.Registration :=
  {| chi.reg_method := "GET";
     chi.reg_path := "/health";
     chi.reg_chain := scope;
     chi.reg_handler := Some healthHandler |}.

(** A feature module that leaves the method and the path segment of the
    node it is given as they are, as every module that can only call the
    exported functions does. *)
Definition keeps_info (cfg : config.Config) (p : RouteProvider) : Prop :=
  forall n, info (RegisterRoutes p n cfg) = info n.

(** ** Induction over JSON values *)

Section JSON_induction.
Variable P : JSON -> Prop.
Hypothesis P_null : P JNull.
Hypothesis P_bool : forall b, P (JBool b).
Hypothesis P_number : forall z, P (JNumber z).
Hypothesis P_string : forall s, P (JString s).
Hypothesis P_array : forall items, Forall P items -> P (JArray items).
Hypothesis P_object : forall members, Forall (fun kx => P (snd kx)) members -> P (JObject members).

Fixpoint JSON_ind (v : JSON) : P v :=
  match v with
  | JNull => P_null
  | JBool b => P_bool b
  | JNumber z => P_number z
  | JString s => P_string s
  | JArray items =>
      P_array items
        ((fix all (l : list JSON) : Forall P l :=
            match l with
            | [] => @List.Forall_nil _ P
            | x :: l' => @List.Forall_cons _ P x l' (JSON_ind x) (all l')
            end) items)
  | JObject members =>
      P_object members
        ((fix all (l : list (string * JSON)) : Forall (fun kx => P (snd kx)) l :=
            match l with
            | [] => @List.Forall_nil _ (fun kx => P (snd kx))
            | kx :: l' =>
                @List.Forall_cons _ (fun kx => P (snd kx)) kx l' (JSON_ind (snd kx)) (all l')
            end) members)
  end.
End JSON_induction.

(** A body of [n] bytes. *)
Fixpoint filler (n : nat) : string :=
  match n with
  | O => ""
  | S n' => String "a" (filler n')
  end.

(** ** Notions for the environment readers *)

(** The two variables [config.Load] requires, and nothing else. *)
Definition two_vars : configenv.Env :=
  {[ "DB_PATH" := "stund.db"; "API_KEY" := "s3cret" ]}.

(** The number of bytes of [s] equal to [c]. *)
Fixpoint count_byte (c : ascii) (s : string) : nat :=
  match s with
  | EmptyString => O
  | String x s' => if Ascii.eqb x c then S (count_byte c s') else count_byte c s'
  end.

(** The pieces with the separator written between them. *)
Fixpoint join_with (sep : ascii) (pieces : list string) : string :=
  match pieces with
  | [] => ""
  | [piece] => piece
  | piece :: rest => piece +:+ String sep (join_with sep rest)
  end.

(** ** What a database handle was asked to do *)

(** A call on a [sql.DB] handle. *)
Inductive Call : Type :=
| CallOpen (driverName dataSourceName : string)
| CallExec (query : string)
| CallSetConnMaxLifetime (d : config.Duration)
| CallSetMaxOpenConns (n : Z)
| CallSetMaxIdleConns (n : Z)
| CallPing
| CallClose.

(** A call that went through, or one that came back with an error. *)
Inductive Event : Type :=
| Did (c : Call)
| Refused (c : Call) (err : string).

Definition event (c : Call) (err : option string) : Event :=
  match err with
  | None => Did c
  | Some e => Refused c e
  end.

(** A handle that also keeps, in order, what it was asked to do. *)
#[export] Instance Recording_DB {D : Type} `{!sql.DB D} : sql.DB (D * list Event) := {
  sql.Open dl driverName dataSourceName :=
    let '(d, err) := sql.Open (fst dl) driverName dataSourceName in
    ((d, snd dl ++ [event (CallOpen driverName dataSourceName) err]), err);
  sql.Exec dl query :=
    let '(d, err) := sql.Exec (fst dl) query in
    ((d, snd dl ++ [event (CallExec query) err]), err);
  sql.SetConnMaxLifetime dl t :=
    (sql.SetConnMaxLifetime (fst dl) t, snd dl ++ [Did (CallSetConnMaxLifetime t)]);
  sql.SetMaxOpenConns dl n :=
    (sql.SetMaxOpenConns (fst dl) n, snd dl ++ [Did (CallSetMaxOpenConns n)]);
  sql.SetMaxIdleConns dl n :=
    (sql.SetMaxIdleConns (fst dl) n, snd dl ++ [Did (CallSetMaxIdleConns n)]);
  sql.Ping dl :=
    let '(d, err) := sql.Ping (fst dl) in
    ((d, snd dl ++ [event CallPing err]), err);
  sql.Close dl :=
    let '(d, err) := sql.Close (fst dl) in
    ((d, snd dl ++ [event CallClose err]), err)
}.

(** The calls of [NewSQLiteDB] up to the pragmas, and from the pragmas to
    the ping. *)
Definition opening (cfg : config.Config) : list Call :=
  [CallOpen "sqlite3" (config.Path (config.Database cfg))].

Definition tuning (cfg : config.Config) : list Call :=
  [ CallSetConnMaxLifetime
      (configenv.mul64 (config.TimeoutSecs (config.Database cfg)) config.Second);
    CallSetMaxOpenConns (config.MaxOpenConns (config.Database cfg));
    CallSetMaxIdleConns (config.MaxIdleConns (config.Database cfg)) ].

(** Every call of a [NewSQLiteDB] that meets no error. *)
Definition script (cfg : config.Config) : list Call :=
  opening cfg ++ map CallExec (database.pragmas cfg) ++ tuning cfg
  ++ [CallPing; CallExec database.schema].

(** A database that refuses nothing and keeps nothing. *)
#[export] Instance Accepting_DB : sql.DB unit := {
  sql.Open _ _ _ := (tt, None);
  sql.Exec _ _ := (tt, None);
  sql.SetConnMaxLifetime _ _ := tt;
  sql.SetMaxOpenConns _ _ := tt;
  sql.SetMaxIdleConns _ _ := tt;
  sql.Ping _ := (tt, None);
  sql.Close _ := (tt, None)
}.

(** The error [NewSQLiteDB] returns when the given call comes back with
    an error; the setters cannot. *)
Definition report (c : Call) : string :=
  match c with
  | CallOpen _ _ => "database connection failed"
  | CallExec query =>
      if String.eqb query database.schema
      then "failed to initialize schema"
      else "failed to set SQLite PRAGMA settings"
  | CallPing => "failed to ping database"
  | _ => ""
  end.

(** The sink after the given writes, none of which is checked for failure. *)
Definition feed `{Writer W} (w : W) (lines : list string) : W :=
  fold_left (fun w l => fst (Fprint w l)) lines w.

(** The line printed for a pair. *)
Definition line_of (mp : HTTPMethod * string) : string := route_line (fst mp) (snd mp).

(** A wrapper whose dispatcher has received the routes [rs] after those it
    already held. *)
Definition add_routes (r : routerWrapped) (rs : list chi.Entry) : routerWrapped :=
  {| internal := {| chi.stack := chi.stack (internal r);
                    chi.tree := chi.tree (internal r) ++ rs |};
     routeTree := routeTree r |}.

(** ** Induction over route trees *)

Section RouteNode_induction.
Variable P : RouteNode -> Prop.
Hypothesis step : forall cs i mws h, Forall P cs -> P (mkRouteNode cs i mws h).

Fixpoint RouteNode_ind (n : RouteNode) : P n :=
  match n with
  | mkRouteNode cs i mws h =>
      step cs i mws h
        ((fix all (l : list RouteNode) : Forall P l :=
            match l with
            | [] => @List.Forall_nil _ P
            | c :: l' => @List.Forall_cons _ P c l' (RouteNode_ind c) (all l')
            end) cs)
  end.
End RouteNode_induction.

(** * Properties *)

(** ** Strings *)

Lemma append_cons (x : ascii) (a b : string) : String x a +:+ b = String x (a +:+ b).
Proof. reflexivity. Qed.

Lemma append_assoc (a b c : string) : (a +:+ b) +:+ c = a +:+ (b +:+ c).
Proof.
  induction a as [|x a IH]; [reflexivity|].
  rewrite !append_cons. f_equal. exact IH.
Qed.

Lemma append_empty_r (a : string) : a +:+ "" = a.
Proof.
  induction a as [|x a IH]; [reflexivity|].
  rewrite append_cons. f_equal. exact IH.
Qed.

(** ** The printer *)

Section Printer.
Context `{Writer W}.
Hypothesis never_fails : forall (w : W) (s : string), snd (Fprint w s) = None.

Lemma feed_app (w : W) (l1 l2 : list string) : feed w (l1 ++ l2) = feed (feed w l1) l2.
Proof. unfold feed. apply fold_left_app. Qed.

(** On a sink that accepts every write, [writeRoute] writes the lines of
    [listing], in order. *)
Lemma writeRoute_listing (r : routerWrapped) (node : RouteNode) :
  forall (w : W) (basePath : string),
    writeRoute r w node basePath
    = feed w (map (fun mp => route_line (fst mp) (snd mp)) (listing node basePath)).
Proof using never_fails.
  induction node as [cs i mws h IH] using RouteNode_ind. intros w basePath.
  cbn [writeRoute listing children info handler].
  set (cur := basePath +:+ route i).
  assert (Hkids : forall w0,
    fold_left (fun w1 child => writeRoute r w1 child cur) cs w0
    = feed w0 (map (fun mp => route_line (fst mp) (snd mp))
                   (flat_map (fun child => listing child cur) cs))).
  { clear -IH. induction cs as [|c cs IHcs]; intro w0; [reflexivity|].
    inversion IH as [|? ? Hc Hcs]; subst. cbn [fold_left flat_map].
    rewrite map_app, feed_app, <- Hc. apply IHcs, Hcs. }
  destruct (negb (isNil h) && negb (String.eqb (method i) Undefined)).
  - unfold Fprintf_route. cbn [map app fst snd].
    specialize (never_fails w (route_line (method i) cur)).
    destruct (Fprint w (route_line (method i) cur)) as [w' e] eqn:E.
    cbn in never_fails. subst e. rewrite Hkids. unfold feed at 2. cbn [fold_left].
    rewrite E. reflexivity.
  - cbn [app]. apply Hkids.
Qed.
End Printer.

Lemma feed_lines (log lines : list string) : feed log lines = log ++ lines.
Proof.
  revert log. induction lines as [|l lines IH]; intro log.
  - cbn. now rewrite app_nil_r.
  - cbn [feed fold_left]. change (feed (log ++ [l]) lines = log ++ l :: lines).
    rewrite IH, <- app_assoc. reflexivity.
Qed.

Lemma feed_buffer (buf : string) (lines : list string) : feed buf lines = buf +:+ join lines.
Proof.
  revert buf. induction lines as [|l lines IH]; intro buf.
  - cbn. now rewrite append_empty_r.
  - cbn [feed fold_left]. change (feed (buf +:+ l) lines = buf +:+ join (l :: lines)).
    rewrite IH. cbn [join]. apply append_assoc.
Qed.

Lemma writeRoute_lines (r : routerWrapped) (node : RouteNode) (log : list string) (basePath : string) :
  writeRoute r log node basePath = log ++ map line_of (listing node basePath).
Proof.
  rewrite (writeRoute_listing (W := list string)) by reflexivity.
  apply feed_lines.
Qed.

Lemma writeRoute_buffer (r : routerWrapped) (node : RouteNode) (buf : string) (basePath : string) :
  writeRoute r buf node basePath = buf +:+ join (map line_of (listing node basePath)).
Proof.
  rewrite (writeRoute_listing (W := string)) by reflexivity.
  apply feed_buffer.
Qed.

(** ** The materializer *)

Lemma add_routes_nil r : add_routes r [] = r.
Proof. destruct r as [[st tr] rt]. unfold add_routes. cbn. now rewrite app_nil_r. Qed.

Lemma add_routes_app r l1 l2 : add_routes (add_routes r l1) l2 = add_routes r (l1 ++ l2).
Proof. unfold add_routes. cbn. now rewrite <- app_assoc. Qed.

Lemma fold_add_routes (f : RouteNode -> list chi.Entry) (g : routerWrapped -> RouteNode -> routerWrapped) cs :
  Forall (fun c => forall r, g r c = add_routes r (f c)) cs ->
  forall r, fold_left g cs r = add_routes r (flat_map f cs).
Proof.
  induction 1 as [|c cs Hc _ IH]; intro r; cbn [fold_left flat_map].
  - now rewrite add_routes_nil.
  - rewrite Hc, IH. apply add_routes_app.
Qed.

Lemma registerMethod_adds r node m path :
  registerMethodWithMiddleware r node (chi.Method m) path
  = add_routes r [chi.Endpoint m path (middlewares node) (handler node)].
Proof.
  unfold registerMethodWithMiddleware, add_routes, chi.Method.
  destruct (middlewares node) as [|mw mws]; reflexivity.
Qed.

Lemma registerWithChi_emitted (node : RouteNode) :
  forall (r : routerWrapped) (basePath : string),
    registerWithChi r node basePath = add_routes r (emitted node basePath).
Proof.
  induction node as [cs i mws h IH] using RouteNode_ind. intros r basePath.
  cbn [registerWithChi emitted children info handler].
  set (cur := basePath +:+ route i).
  destruct (String.eqb (method i) Undefined && isNil h && Nat.ltb 0 (length cs)
            && Nat.ltb 0 (String.length cur)).
  - unfold chi.Route, add_routes. cbn [internal routeTree chi.stack chi.tree].
    rewrite (fold_add_routes (fun c => emitted c "")).
    + reflexivity.
    + eapply List.Forall_impl; [|exact IH]. intros c Hc r0. apply Hc.
  - destruct h as [h|].
    + unfold is_verb, chi.Get, chi.Post, chi.Put, chi.Delete.
      destruct (String.eqb (method i) GET) eqn:E1.
      { apply String.eqb_eq in E1. cbn [orb]. rewrite registerMethod_adds, E1. reflexivity. }
      destruct (String.eqb (method i) POST) eqn:E2.
      { apply String.eqb_eq in E2. cbn [orb]. rewrite registerMethod_adds, E2. reflexivity. }
      destruct (String.eqb (method i) PUT) eqn:E3.
      { apply String.eqb_eq in E3. cbn [orb]. rewrite registerMethod_adds, E3. reflexivity. }
      destruct (String.eqb (method i) DELETE) eqn:E4.
      { apply String.eqb_eq in E4. cbn [orb]. rewrite registerMethod_adds, E4. reflexivity. }
      cbn [orb]. now rewrite add_routes_nil.
    + apply (fold_add_routes (fun c => emitted c cur)).
      eapply List.Forall_impl; [|exact IH]. intros c Hc r0. apply Hc.
Qed.

(** ** Which nodes are printed and which are registered *)

Lemma in_flat_map_twice {A B C} (f : B -> list C) (g : A -> list B) (l : list A) (x : C) :
  In x (flat_map f (flat_map g l)) <-> exists a, In a l /\ In x (flat_map f (g a)).
Proof.
  rewrite List.in_flat_map. split.
  - intros (b & Hb & Hx). apply List.in_flat_map in Hb as (a & Ha & Hb).
    exists a. split; [exact Ha|]. apply List.in_flat_map. eauto.
  - intros (a & Ha & Hx). apply List.in_flat_map in Hx as (b & Hb & Hx).
    exists b. split; [|exact Hx]. apply List.in_flat_map. eauto.
Qed.

(** The paths from a node: the node itself, or a path from a child. *)
Lemma path_via_inv (P : RouteNode -> Prop) (n : RouteNode) (segs : list string) (d : RouteNode) :
  path_via P n segs d <->
  (d = n /\ segs = [route (info n)]) \/
  (P n /\ exists c rest, In c (children n) /\ path_via P c rest d
                         /\ segs = route (info n) :: rest).
Proof.
  split.
  - intros Hp. inversion Hp; subst; [left; auto | right; eauto 8].
  - intros [[-> ->] | (HP & c & rest & Hc & Hp & ->)].
    + constructor.
    + econstructor; eassumption.
Qed.

Lemma listing_paths (node : RouteNode) :
  forall (basePath : string) (m : HTTPMethod) (p : string),
    In (m, p) (listing node basePath) <->
    exists segs d,
      path_via any_node node segs d /\ isNil (handler d) = false
      /\ method (info d) <> Undefined
      /\ m = method (info d) /\ p = basePath +:+ join segs.
Proof.
  induction node as [cs i mws h IH] using RouteNode_ind. intros basePath m p.
  cbn [listing children info handler]. rewrite in_app_iff, List.in_flat_map.
  split.
  - intros [Hown | (c & Hc & Hin)].
    + destruct (isNil h) eqn:Eh; cbn [negb andb] in Hown; [contradiction|].
      destruct (String.eqb (method i) Undefined) eqn:Em; cbn [negb] in Hown;
        [contradiction|].
      destruct Hown as [Hown|[]]. injection Hown as <- <-.
      exists [route i], (mkRouteNode cs i mws h). cbn [join handler info].
      rewrite append_empty_r. apply String.eqb_neq in Em.
      repeat split; try assumption. apply (path_here any_node (mkRouteNode cs i mws h)).
    + rewrite List.Forall_forall in IH. apply (IH c Hc) in Hin as (segs & d & Hp & Hh & Hm & -> & ->).
      exists (route i :: segs), d. cbn [join]. rewrite append_assoc.
      repeat split; try assumption.
      apply (path_below any_node (mkRouteNode cs i mws h) c); [exact I | exact Hc | exact Hp].
  - intros (segs & d & Hp & Hh & Hm & -> & ->).
    apply path_via_inv in Hp as [[-> ->] | (_ & c & rest & Hc & Hp & ->)].
    + left. cbn [handler info] in *. rewrite Hh. apply String.eqb_neq in Hm. rewrite Hm.
      cbn [negb andb join]. rewrite append_empty_r. left. reflexivity.
    + right. exists c. split; [exact Hc|]. cbn [children] in Hc.
      rewrite List.Forall_forall in IH. apply (IH c Hc). exists rest, d.
      cbn [join info]. rewrite append_assoc. auto.
Qed.

Lemma emitted_registrations (node : RouteNode) :
  forall (prefix : string) (scope : list Middleware) (basePath : string)
         (g : chi.Registration),
    In g (flat_map (chi.registrations_of prefix scope) (emitted node basePath)) <->
    exists segs d,
      path_via grouping node segs d /\ isNil (handler d) = false
      /\ is_verb (method (info d)) = true
      /\ g = registration_for scope (prefix +:+ basePath +:+ join segs) d.
Proof.
  induction node as [cs i mws h IH] using RouteNode_ind.
  intros prefix scope basePath g. rewrite List.Forall_forall in IH.
  assert (Hbelow : forall pre sc base,
    pre +:+ base = prefix +:+ basePath +:+ route i -> sc = scope -> h = None ->
    (In g (flat_map (chi.registrations_of pre sc)
                    (flat_map (fun c => emitted c base) cs)) <->
     exists segs d,
       path_via grouping (mkRouteNode cs i mws h) segs d /\ isNil (handler d) = false
       /\ is_verb (method (info d)) = true
       /\ g = registration_for scope (prefix +:+ basePath +:+ join segs) d)).
  { intros pre sc base Hpath -> ->. rewrite in_flat_map_twice. split.
    - intros (c & Hc & Hin). apply (IH c Hc) in Hin as (segs & d & Hp & Hh & Hv & ->).
      exists (route i :: segs), d. repeat split; try assumption.
      + apply (path_below grouping (mkRouteNode cs i mws None) c);
          [reflexivity | exact Hc | exact Hp].
      + cbn [join]. f_equal.
        rewrite <- (append_assoc pre), Hpath, !append_assoc. reflexivity.
    - intros (segs & d & Hp & Hh & Hv & ->).
      apply path_via_inv in Hp as [[-> ->] | (_ & c & rest & Hc & Hp & ->)].
      + cbn in Hh. discriminate.
      + exists c. split; [exact Hc|]. apply (IH c Hc). exists rest, d.
        repeat split; try assumption.
        cbn [join info]. f_equal.
        rewrite <- (append_assoc pre), Hpath, !append_assoc. reflexivity. }
  cbn [emitted children info handler].
  set (cur := basePath +:+ route i).
  destruct (String.eqb (method i) Undefined && isNil h && Nat.ltb 0 (length cs)
            && Nat.ltb 0 (String.length cur)) eqn:Econd.
  - assert (h = None) as Hnil.
    { destruct h; [|reflexivity]. cbn in Econd. rewrite andb_false_r in Econd.
      discriminate. }
    cbn [flat_map chi.registrations_of]. rewrite app_nil_r.
    apply Hbelow; [| apply app_nil_r | exact Hnil].
    unfold cur. rewrite append_empty_r. reflexivity.
  - destruct h as [h|].
    + split.
      * intros Hin. destruct (is_verb (method i)) eqn:Ev; [|contradiction].
        cbn in Hin. destruct Hin as [<-|[]].
        exists [route i], (mkRouteNode cs i mws (Some h)).
        repeat split; try assumption; [constructor|].
        unfold registration_for. cbn [join info middlewares handler].
        rewrite append_empty_r. reflexivity.
      * intros (segs & d & Hp & Hh & Hv & ->).
        apply path_via_inv in Hp as [[-> ->] | (Hg & _)]; [|discriminate Hg].
        cbn [info] in Hv. rewrite Hv. cbn. left.
        unfold registration_for. cbn [join info middlewares handler].
        rewrite append_empty_r. reflexivity.
    + apply Hbelow; reflexivity.
Qed.

(** What a call of [registerWithChi] adds to the dispatcher's registrations. *)
Lemma registrations_after (r : routerWrapped) (root : RouteNode) (basePath : string) :
  exists added,
    chi.Registrations (internal (registerWithChi r root basePath))
    = chi.Registrations (internal r) ++ added
    /\ forall g, In g added <->
         exists segs d,
           path_via grouping root segs d /\ isNil (handler d) = false
           /\ is_verb (method (info d)) = true
           /\ g = registration_for (chi.stack (internal r)) (basePath +:+ join segs) d.
Proof.
  exists (flat_map (chi.registrations_of "" (chi.stack (internal r))) (emitted root basePath)).
  split.
  - rewrite registerWithChi_emitted. unfold chi.Registrations, add_routes.
    cbn [internal chi.stack chi.tree]. apply flat_map_app.
  - intro g. apply (emitted_registrations root "" (chi.stack (internal r)) basePath g).
Qed.

Lemma routes_after (r : routerWrapped) (root : RouteNode) (basePath : string)
    (m : HTTPMethod) (p : string) :
  In (m, p) (chi.Routes (internal (registerWithChi r root basePath))) <->
  In (m, p) (chi.Routes (internal r)) \/
  exists segs d,
    path_via grouping root segs d /\ isNil (handler d) = false
    /\ is_verb (method (info d)) = true
    /\ m = method (info d) /\ p = basePath +:+ join segs.
Proof.
  destruct (registrations_after r root basePath) as (added & Heq & Hadded).
  unfold chi.Routes. rewrite Heq, map_app, in_app_iff.
  apply or_iff_compat_l. rewrite in_map_iff. split.
  - intros (g & Hg & Hin). apply Hadded in Hin as (segs & d & Hp & Hh & Hv & ->).
    cbn in Hg. injection Hg as <- <-. eauto 10.
  - intros (segs & d & Hp & Hh & Hv & -> & ->).
    exists (registration_for (chi.stack (internal r)) (basePath +:+ join segs) d).
    split; [reflexivity|]. apply Hadded. eauto 10.
Qed.

Lemma verb_not_Undefined (m : HTTPMethod) : is_verb m = true -> m <> Undefined.
Proof.
  unfold is_verb. intros Hv ->. vm_compute in Hv. discriminate.
Qed.

Lemma path_via_weaken (P Q : RouteNode -> Prop) (n : RouteNode) (segs : list string) (d : RouteNode) :
  (forall x, P x -> Q x) -> path_via P n segs d -> path_via Q n segs d.
Proof.
  intros HPQ Hp. induction Hp as [n | n c segs d HP Hc _ IH].
  - constructor.
  - econstructor; eauto.
Qed.

(** Every route the materializer registers is one the printer lists. *)
Lemma registered_are_listed (root : RouteNode) (basePath : string) (m : HTTPMethod) (p : string) :
  In (m, p) (chi.Routes (internal (registerWithChi bare_router root basePath))) ->
  In (m, p) (listing root basePath).
Proof.
  rewrite routes_after. intros [[] | (segs & d & Hp & Hh & Hv & -> & ->)].
  apply listing_paths. exists segs, d. repeat split; try assumption.
  - eapply path_via_weaken; [|exact Hp]. intros; exact I.
  - apply verb_not_Undefined, Hv.
Qed.

Lemma path_via_grouping (n : RouteNode) (segs : list string) (d : RouteNode) :
  path_via any_node n segs d ->
  (forall segs' a, path_via any_node n segs' a -> children a <> [] -> handler a = None) ->
  path_via grouping n segs d.
Proof.
  intros Hp. induction Hp as [n | n c segs d _ Hc Hp IH]; intro Hleaves.
  - constructor.
  - apply (path_below grouping n c); [| exact Hc |].
    + apply (Hleaves [route (info n)] n); [constructor|].
      intro E. rewrite E in Hc. exact Hc.
    + apply IH. intros segs' a Ha. apply (Hleaves (route (info n) :: segs') a).
      apply (path_below any_node n c); [exact I | exact Hc | exact Ha].
Qed.

(** The converse holds on trees whose handler-carrying nodes have no
    children and use one of the four methods. *)
Lemma listed_are_registered (root : RouteNode) (basePath : string) (m : HTTPMethod) (p : string) :
  (forall segs a, path_via any_node root segs a -> children a <> [] -> handler a = None) ->
  (forall segs a, path_via any_node root segs a -> isNil (handler a) = false ->
                  method (info a) <> Undefined -> is_verb (method (info a)) = true) ->
  In (m, p) (listing root basePath) ->
  In (m, p) (chi.Routes (internal (registerWithChi bare_router root basePath))).
Proof.
  intros Hleaves Hverbs Hin. apply listing_paths in Hin as (segs & d & Hp & Hh & Hm & -> & ->).
  apply routes_after. right. exists segs, d. repeat split; try assumption.
  - apply path_via_grouping; assumption.
  - eapply Hverbs; eassumption.
Qed.

(** ** The claims about the route tree *)

(** C1 (code defect). The claim asks that the printer and the materializer
    give the same [(method, fullPath)] pairs for every tree. For the tree
    built by [root.Get("/a", h).Get("/b", h)] the printer writes the lines
    for [GET /a] and [GET /a/b], while the dispatcher receives [GET /a]
    only: the route below the route is announced and never served. *)
Theorem C1_printer_lists_a_route_never_registered :
  writeRoute bare_router ([] : list string) tree_nested_handlers ""
    = [route_line "GET" "/a"; route_line "GET" "/a/b"]
  /\ chi.Routes (internal (registerWithChi bare_router tree_nested_handlers ""))
    = [("GET", "/a")]
  /\ In ("GET", "/a/b") (listing tree_nested_handlers "")
  /\ ~ In ("GET", "/a/b")
        (chi.Routes (internal (registerWithChi bare_router tree_nested_handlers ""))).
Proof.
  split; [reflexivity|]. split; [reflexivity|]. split.
  - vm_compute. auto.
  - vm_compute. intros [E|[]]. discriminate E.
Qed.

(** C3. A handler-carrying node is registered with the dispatcher's own
    [Use] stack followed by exactly the node's [middlewares], in the order
    [With] appended them; nothing attached to an ancestor enters the chain,
    and middleware attached to a grouping node changes nothing at all. *)
Theorem C3_middleware_is_the_nodes_own (r : routerWrapped) (root : RouteNode)
    (basePath : string) :
  (exists added,
     chi.Registrations (internal (registerWithChi r root basePath))
     = chi.Registrations (internal r) ++ added
     /\ forall g, In g added <->
          exists segs d,
            path_via grouping root segs d /\ isNil (handler d) = false
            /\ is_verb (method (info d)) = true
            /\ g = {| chi.reg_method := method (info d);
                      chi.reg_path := basePath +:+ join segs;
                      chi.reg_chain := chi.stack (internal r) ++ middlewares d;
                      chi.reg_handler := handler d |})
  /\ (forall n mws1 mws2,
        middlewares (With (With n mws1) mws2) = middlewares n ++ mws1 ++ mws2)
  /\ (forall mws, isNil (handler root) = true ->
        registerWithChi r (With root mws) basePath = registerWithChi r root basePath).
Proof.
  split; [apply registrations_after|]. split.
  - intros n mws1 mws2. cbn. now rewrite <- app_assoc.
  - intros mws Hnil. rewrite !registerWithChi_emitted. f_equal.
    destruct root as [cs i ms h]. cbn in Hnil. destruct h; [discriminate|].
    reflexivity.
Qed.


(** C6. At a node with a handler the materializer registers the node's
    own route (when its method is one of the four it has a case for) and
    returns: the children play no part, so no route declared below such a
    node reaches the dispatcher. The printer goes on into the children and
    prints what it finds there. *)
Theorem C6_materializer_stops_at_a_handler (r : routerWrapped) (n : RouteNode)
    (basePath : string) (Hhandler : isNil (handler n) = false) :
  registerWithChi r n basePath = registerWithChi r (set_children n []) basePath
  /\ chi.tree (internal (registerWithChi r n basePath))
     = chi.tree (internal r)
       ++ (if is_verb (method (info n))
           then [chi.Endpoint (method (info n)) (basePath +:+ route (info n))
                              (middlewares n) (handler n)]
           else [])
  /\ (forall (c : RouteNode) (line : string),
        In c (children n) ->
        In line (writeRoute r ([] : list string) c (basePath +:+ route (info n))) ->
        In line (writeRoute r ([] : list string) n basePath)).
Proof.
  destruct n as [cs i mws h]. cbn [handler] in Hhandler.
  destruct h as [h|]; [|discriminate]. clear Hhandler.
  assert (Hown : forall cs', emitted (mkRouteNode cs' i mws (Some h)) basePath
    = if is_verb (method i)
      then [chi.Endpoint (method i) (basePath +:+ route i) mws (Some h)] else []).
  { intro cs'. cbn [emitted children info handler isNil].
    rewrite andb_false_r. reflexivity. }
  split; [|split].
  - rewrite !registerWithChi_emitted. unfold set_children.
    cbn [children info middlewares handler]. now rewrite !Hown.
  - rewrite registerWithChi_emitted, Hown. reflexivity.
  - intros c line Hc. rewrite !writeRoute_lines. cbn [app children info].
    rewrite !in_map_iff. intros (mp & <- & Hin). exists mp. split; [reflexivity|].
    cbn [listing children info]. apply in_app_iff. right.
    apply List.in_flat_map. exists c. split; assumption.
Qed.

(** C6 at the node of [/a] in [n.Get("/a", h).Get("/b", h)]: only [GET /a]
    is registered, and the line of [GET /a/b] is printed. *)
Lemma C6_materializer_stops_at_a_handler_witness :
  isNil (handler node_a_with_child) = false
  /\ chi.Routes (internal (registerWithChi bare_router node_a_with_child ""))
     = [("GET", "/a")]
  /\ In (route_line "GET" "/a/b") (writeRoute bare_router ([] : list string) node_a_with_child "").
Proof.
  split; [reflexivity|].
  pose proof (C6_materializer_stops_at_a_handler bare_router node_a_with_child ""
                eq_refl) as (Hsame & Htree & Hprint).
  split.
  - unfold chi.Routes, chi.Registrations. rewrite Htree. reflexivity.
  - apply (Hprint (leaf GET "/b" (Some ok_handler))); vm_compute; auto.
Defined.

(** ** The lifecycle *)

(** C9. [WriteRoutes] hands the wrapper back as it was: the tree, with
    its nodes, methods, paths, middlewares and the order of children, is
    the one it was given, whatever the sink does. Called twice, it feeds a
    sink that accepts its writes the same lines both times; on a buffer
    that is the same text appended twice. *)
Theorem C9_printing_is_pure (r : routerWrapped) :
  (forall W (HW : Writer W) (w w' : W) (r' : routerWrapped),
     WriteRoutes r w = Ok (r', w') -> r' = r)
  /\ (forall W (HW : Writer W) (w : W) root rest,
        routeTree r = Some (root :: rest) ->
        exists w', WriteRoutes r w = Ok (r, w'))
  /\ (forall W (HW : Writer W) (w1 w1' w2 w2' : W) (r1 r2 : routerWrapped),
        (forall w s, snd (Fprint w s) = None) ->
        WriteRoutes r w1 = Ok (r1, w1') ->
        WriteRoutes r1 w2 = Ok (r2, w2') ->
        r2 = r /\ exists lines, w1' = feed w1 lines /\ w2' = feed w2 lines)
  /\ (forall (b1 b1' b2 b2' : string) (r1 r2 : routerWrapped),
        WriteRoutes r b1 = Ok (r1, b1') ->
        WriteRoutes r1 b2 = Ok (r2, b2') ->
        r2 = r /\ exists out, b1' = b1 +:+ out /\ b2' = b2 +:+ out).
Proof.
  assert (Hsame : forall W (HW : Writer W) (w w' : W) r',
            WriteRoutes r w = Ok (r', w') ->
            r' = r /\ exists root rest,
              routeTree r = Some (root :: rest) /\ w' = writeRoute r w root "").
  { intros W HW w w' r'. unfold WriteRoutes.
    destruct (routeTree r) as [[|root rest]|]; try discriminate.
    intros [= <- <-]. eauto. }
  split; [|split; [|split]].
  - intros W HW w w' r' Hw. apply (Hsame W HW w w' r' Hw).
  - intros W HW w root rest Htree. unfold WriteRoutes. rewrite Htree. eauto.
  - intros W HW w1 w1' w2 w2' r1 r2 Hok H1 H2.
    apply Hsame in H1 as (-> & root & rest & Htree & ->).
    apply Hsame in H2 as (-> & root' & rest' & Htree' & ->).
    rewrite Htree in Htree'. injection Htree' as <- <-. split; [reflexivity|].
    exists (map line_of (listing root "")).
    split; apply (writeRoute_listing Hok).
  - intros b1 b1' b2 b2' r1 r2 H1 H2.
    apply Hsame in H1 as (-> & root & rest & Htree & ->).
    apply Hsame in H2 as (-> & root' & rest' & Htree' & ->).
    rewrite Htree in Htree'. injection Htree' as <- <-. split; [reflexivity|].
    exists (join (map line_of (listing root ""))).
    split; apply writeRoute_buffer.
Qed.

(** C10. Once [ClearRouteTree] has run the tree pointer is nil, and both
    entry points of the wrapper that reach for the tree, [WriteRoutes] and
    [SetupRoutes], panic on their first statement, for every sink, every
    routing context and every configuration; nothing is printed and
    nothing is registered. *)
Theorem C10_no_tree_after_clear (r : routerWrapped) :
  routeTree (ClearRouteTree r) = None
  /\ internal (ClearRouteTree r) = internal r
  /\ (forall W (HW : Writer W) (w : W),
        WriteRoutes (ClearRouteTree r) w
        = Panic "runtime error: invalid memory address or nil pointer dereference")
  /\ (forall context cfg,
        SetupRoutes (ClearRouteTree r) context cfg
        = Panic "runtime error: invalid memory address or nil pointer dereference").
Proof. repeat split. Qed.

(** ** Building the tree *)

Lemma through_last (f : RouteNode -> RouteNode) (n c : RouteNode) :
  through f (set_children n (children n ++ [c])) = set_children n (children n ++ [f c]).
Proof.
  unfold through, set_children. cbn [children info middlewares handler].
  rewrite rev_app_distr. cbn [rev app]. rewrite rev_involutive. reflexivity.
Qed.

Lemma Route_appends (n : RouteNode) (pattern : string) (f : RouteNode -> RouteNode) :
  Route n pattern f = set_children n (children n ++ [f (leaf Undefined pattern None)]).
Proof. unfold Route, newRouteNode. cbn [fst]. apply through_last. Qed.

(** C4, as the claim states it, fails: [root.Get("/x", nil)] does not
    fail, it leaves a GET node without a handler among the children of the
    root, and [newRouteNode(Undefined, "/x", h)] leaves an [Undefined] node
    with a handler there. Neither is printed, neither is registered, and
    nothing is reported. *)
Lemma C4_ill_formed_nodes_are_accepted :
  In (snd (Get root0 "/x" None)) (children (fst (Get root0 "/x" None)))
  /\ method (info (snd (Get root0 "/x" None))) = GET
  /\ handler (snd (Get root0 "/x" None)) = None
  /\ In (snd (newRouteNode root0 Undefined "/x" (Some ok_handler)))
        (children (fst (newRouteNode root0 Undefined "/x" (Some ok_handler))))
  /\ method (info (snd (newRouteNode root0 Undefined "/x" (Some ok_handler)))) = Undefined
  /\ handler (snd (newRouteNode root0 Undefined "/x" (Some ok_handler))) = Some ok_handler
  /\ registerWithChi bare_router (fst (Get root0 "/x" None)) "" = bare_router
  /\ writeRoute bare_router ([] : list string) (fst (Get root0 "/x" None)) "" = []
  /\ registerWithChi bare_router
       (fst (newRouteNode root0 Undefined "/x" (Some ok_handler))) "" = bare_router
  /\ writeRoute bare_router ([] : list string)
       (fst (newRouteNode root0 Undefined "/x" (Some ok_handler))) "" = [].
Proof.
  repeat split; try reflexivity; cbn; auto.
Qed.

(** C4, amended. Construction never fails and checks nothing:
    [newRouteNode] appends a childless node with exactly the method,
    pattern and handler it was given, whatever they are, and returns it;
    [Get], [Post], [Put] and [Delete] fix the method and take any handler,
    nil included; [Route] appends an [Undefined] node without a handler
    and hands it to its callback. *)
Theorem C4_construction_never_rejects (n : RouteNode) (m : HTTPMethod)
    (pattern : string) (h : option Handler) (f : RouteNode -> RouteNode) :
  newRouteNode n m pattern h
    = (set_children n (children n ++ [leaf m pattern h]), leaf m pattern h)
  /\ method (info (leaf m pattern h)) = m
  /\ route (info (leaf m pattern h)) = pattern
  /\ handler (leaf m pattern h) = h
  /\ Get n pattern h = newRouteNode n GET pattern h
  /\ Post n pattern h = newRouteNode n POST pattern h
  /\ Put n pattern h = newRouteNode n PUT pattern h
  /\ Delete n pattern h = newRouteNode n DELETE pattern h
  /\ Route n pattern f = set_children n (children n ++ [f (leaf Undefined pattern None)]).
Proof.
  repeat split. apply Route_appends.
Qed.

(** ** The health route *)

Lemma SetupRoutes_no_providers (lib : chi.Stock) (cfg : config.Config) :
  SetupRoutes (New lib cfg) no_providers cfg
  = Ok (add_routes
          {| internal := internal (New lib cfg);
             routeTree :=
               Some [set_children root0
                       [leaf Undefined apiRoot None; leaf GET "/health" (Some healthHandler)]] |}
          [chi.Endpoint "GET" "/health" [] (Some healthHandler)]).
Proof. reflexivity. Qed.

(** C2, as the claim states it, fails: with no feature module the
    dispatcher holds the health route at [/health]; nothing is registered
    at [/api/v1/health]. *)
Lemma C2_health_is_not_under_api_v1 :
  exists r',
    SetupRoutes (New sample_stock sample_config) no_providers sample_config = Ok r'
    /\ chi.Routes (internal r') = [("GET", "/health")]
    /\ ~ In ("GET", "/api/v1/health") (chi.Routes (internal r')).
Proof.
  eexists. split; [apply SetupRoutes_no_providers|]. split; [reflexivity|].
  intros [E|[]]. discriminate E.
Qed.

(** C2, amended. After [SetupRoutes] on a new wrapper with no feature
    module, the dispatcher holds exactly one route, [GET /health], behind
    the dispatcher's own [Use] stack and no other middleware; its handler
    answers every request on an unused response writer with status 200,
    content type [application/json] and the envelope
    [{"success": true, "data": {"status": "healthy"}}]. *)
Theorem C2_health_route (lib : chi.Stock) (cfg : config.Config) :
  exists r',
    SetupRoutes (New lib cfg) no_providers cfg = Ok r'
    /\ chi.Registrations (internal r')
       = [{| chi.reg_method := "GET";
             chi.reg_path := "/health";
             chi.reg_chain := chi.stack (internal (New lib cfg));
             chi.reg_handler := Some healthHandler |}]
    /\ (forall (w : Http.ResponseWriter) (req : Http.Request),
          Http.Status w = None ->
          Http.Status (healthHandler w req) = Some 200
          /\ Http.Written (healthHandler w req) = Http.Written w ++ [health_envelope]
          /\ Http.RespHeader (healthHandler w req) !! "Content-Type"
             = Some ["application/json"]).
Proof.
  eexists. split; [apply SetupRoutes_no_providers|]. split.
  - reflexivity.
  - intros w req Hfresh. unfold healthHandler, utils.RespondWithJSON, Http.Write,
      Http.WriteHeader, Http.SetHeader.
    cbn [Http.Status Http.Written Http.RespHeader]. rewrite Hfresh.
    repeat split. unfold Http.Set_. apply lookup_insert_eq.
Qed.

(** ** The auth interceptor *)

Lemma HasPrefix_append (p s : string) : utils.HasPrefix (p +:+ s) p = true.
Proof.
  induction p as [|c p IH]; [reflexivity|].
  rewrite append_cons. cbn [utils.HasPrefix]. rewrite Ascii.eqb_refl. exact IH.
Qed.

Lemma drop_bytes_append (p s : string) : utils.drop_bytes (String.length p) (p +:+ s) = s.
Proof.
  induction p as [|c p IH]; [destruct s; reflexivity|].
  rewrite append_cons. cbn [String.length utils.drop_bytes]. exact IH.
Qed.

Lemma TrimPrefix_append (p s : string) : utils.TrimPrefix (p +:+ s) p = s.
Proof. unfold utils.TrimPrefix. rewrite HasPrefix_append. apply drop_bytes_append. Qed.

Lemma HasPrefix_split (s p : string) :
  utils.HasPrefix s p = true -> s = p +:+ utils.TrimPrefix s p.
Proof.
  intro Hp. unfold utils.TrimPrefix. rewrite Hp. revert s Hp.
  induction p as [|c p IH]; intros s Hp.
  - destruct s; reflexivity.
  - destruct s as [|x s]; [discriminate|]. cbn [utils.HasPrefix] in Hp.
    apply andb_true_iff in Hp as [Hx Hp]. apply Ascii.eqb_eq in Hx. subst x.
    rewrite append_cons. cbn [String.length utils.drop_bytes]. f_equal. apply IH, Hp.
Qed.

Lemma xor_or_zero (x y : list Z) :
  length x = length y -> forall v, utils.xor_or v x y = 0 <-> v = 0 /\ x = y.
Proof.
  revert y. induction x as [|a x IH]; intros [|b y] Hlen v; try discriminate.
  - cbn. intuition.
  - cbn [utils.xor_or]. injection Hlen as Hlen. rewrite (IH y Hlen).
    rewrite Z.lor_eq_0_iff. split.
    + intros [[Hv Hab] ->]. apply Z.lxor_eq in Hab. subst. auto.
    + intros [Hv [= -> ->]]. rewrite Z.lxor_nilpotent. auto.
Qed.

Lemma bytes_inj (a b : string) : utils.bytes a = utils.bytes b -> a = b.
Proof.
  revert b. induction a as [|x a IH]; intros [|y b] Hab; try discriminate.
  - reflexivity.
  - cbn in Hab. injection Hab as Hxy Hab. f_equal.
    + apply N2Z.inj in Hxy. rewrite <- (ascii_N_embedding x), <- (ascii_N_embedding y).
      now rewrite Hxy.
    + apply IH, Hab.
Qed.

Lemma byte_log2 (a : Z) : 0 <= a -> (a < 256 <-> Z.log2 a < 8).
Proof.
  intro Ha. destruct (Z.eq_dec a 0) as [->|Hne].
  - cbn. lia.
  - change 256 with (2 ^ 8). apply Z.log2_lt_pow2. lia.
Qed.

Lemma lxor_byte (a b : Z) : is_byte a -> is_byte b -> is_byte (Z.lxor a b).
Proof.
  intros [Ha Ha'] [Hb Hb']. split.
  - apply Z.lxor_nonneg. lia.
  - apply byte_log2; [apply Z.lxor_nonneg; lia|].
    pose proof (Z.log2_lxor a b Ha Hb).
    apply byte_log2 in Ha', Hb'; lia.
Qed.

Lemma lor_byte (a b : Z) : is_byte a -> is_byte b -> is_byte (Z.lor a b).
Proof.
  intros [Ha Ha'] [Hb Hb']. split.
  - apply Z.lor_nonneg. lia.
  - apply byte_log2; [apply Z.lor_nonneg; lia|].
    rewrite (Z.log2_lor a b Ha Hb).
    apply byte_log2 in Ha', Hb'; lia.
Qed.

Lemma xor_or_byte (x y : list Z) :
  Forall is_byte x -> Forall is_byte y ->
  forall v, is_byte v -> is_byte (utils.xor_or v x y).
Proof.
  intros Hx. revert y. induction Hx as [|a x Ha _ IH]; intros y Hy v Hv; [exact Hv|].
  destruct Hy as [|b y Hb Hy]; [exact Hv|].
  cbn [utils.xor_or]. apply IH; [exact Hy|]. apply lor_byte; [exact Hv|].
  apply lxor_byte; assumption.
Qed.

Lemma bytes_are_bytes (s : string) : Forall is_byte (utils.bytes s).
Proof.
  unfold utils.bytes. induction s as [|c s IH]; cbn [list_ascii_of_string map];
    constructor; [|exact IH].
  pose proof (N_ascii_bounded c). unfold is_byte. lia.
Qed.

(** On bytes, [ConstantTimeByteEq v 0] is 1 exactly for [v = 0]. *)
Lemma ConstantTimeByteEq_zero (v : Z) :
  is_byte v -> (utils.ConstantTimeByteEq v 0 = 1 <-> v = 0).
Proof.
  intros [Hv Hv']. unfold utils.ConstantTimeByteEq.
  rewrite Z.lxor_0_r, Z.shiftr_div_pow2 by lia.
  destruct (Z.eq_dec v 0) as [->|Hne].
  - split; [reflexivity|]. intros _. reflexivity.
  - split; [|contradiction]. rewrite Z.mod_small by lia.
    rewrite Z.div_small by lia. discriminate.
Qed.

(** [subtle.ConstantTimeCompare] says 1 exactly for equal keys. *)
Lemma ConstantTimeCompare_spec (a b : string) :
  utils.ConstantTimeCompare (utils.bytes a) (utils.bytes b) = 1 <-> a = b.
Proof.
  unfold utils.ConstantTimeCompare.
  destruct (Nat.eqb (length (utils.bytes a)) (length (utils.bytes b))) eqn:Elen; cbn [negb].
  - apply Nat.eqb_eq in Elen.
    assert (Hv : is_byte (utils.xor_or 0 (utils.bytes a) (utils.bytes b))).
    { apply xor_or_byte; try apply bytes_are_bytes. unfold is_byte. lia. }
    rewrite (ConstantTimeByteEq_zero _ Hv), (xor_or_zero _ _ Elen). split.
    + intros [_ Hab]. apply bytes_inj, Hab.
    + intros ->. auto.
  - apply Nat.eqb_neq in Elen. split; [discriminate|]. intros ->. now exfalso.
Qed.

(** C7, as the claim states it, fails for a header that is present with
    an empty value: it is present and not prefixed by [Bearer ], and the
    request is answered with [Missing API Key], which is not the answer
    [Invalid Authorization format.] *)
Lemma C7_empty_header_counts_as_missing :
  Http.ReqHeader (bare_request {["Authorization" := [""]]}) !! "Authorization" = Some [""]
  /\ utils.HasPrefix "" "Bearer " = false
  /\ utils.MiddlewareAPIAuth "s3cret" ok_handler Http.NewRecorder
       (bare_request {["Authorization" := [""]]})
     = deny Http.NewRecorder "Missing API Key"
  /\ deny Http.NewRecorder "Missing API Key"
     <> deny Http.NewRecorder "Invalid Authorization format.".
Proof.
  split; [reflexivity|]. split; [reflexivity|]. split; [reflexivity|].
  intro E. apply (f_equal Http.Written) in E. vm_compute in E. discriminate E.
Qed.

(** C7, amended. With shared secret [s], on every request: a first
    [Authorization] value equal to [Bearer ] followed by [s] passes the
    request to the next handler unchanged; no header, a header without a
    value, or one whose first value is empty, is answered 401
    [Missing API Key]; a non-empty
    first value not prefixed by [Bearer ] is answered 401
    [Invalid Authorization format.]; [Bearer ] followed by a key other
    than [s] is answered 401 [Invalid API Key]. *)
Theorem C7_auth_interceptor (s : string) (next : Handler) (w : Http.ResponseWriter)
    (r : Http.Request) :
  (forall rest,
     Http.ReqHeader r !! "Authorization" = Some (("Bearer " +:+ s) :: rest) ->
     utils.MiddlewareAPIAuth s next w r = next w r)
  /\ (Http.ReqHeader r !! "Authorization" = None ->
      utils.MiddlewareAPIAuth s next w r = deny w "Missing API Key")
  /\ (Http.ReqHeader r !! "Authorization" = Some [] ->
      utils.MiddlewareAPIAuth s next w r = deny w "Missing API Key")
  /\ (forall rest,
        Http.ReqHeader r !! "Authorization" = Some ("" :: rest) ->
        utils.MiddlewareAPIAuth s next w r = deny w "Missing API Key")
  /\ (forall v rest,
        Http.ReqHeader r !! "Authorization" = Some (v :: rest) ->
        v <> "" -> utils.HasPrefix v "Bearer " = false ->
        utils.MiddlewareAPIAuth s next w r = deny w "Invalid Authorization format.")
  /\ (forall k rest,
        Http.ReqHeader r !! "Authorization" = Some (("Bearer " +:+ k) :: rest) ->
        k <> s ->
        utils.MiddlewareAPIAuth s next w r = deny w "Invalid API Key")
  /\ (forall msg,
        Http.Status w = None ->
        Http.Status (deny w msg) = Some 401
        /\ Http.Written (deny w msg)
           = Http.Written w
             ++ [JObject ([("success", JBool false)]
                          ++ if String.eqb msg "" then [] else [("error", JString msg)])]).
Proof.
  unfold utils.MiddlewareAPIAuth, Http.Get, deny.
  split; [|split; [|split; [|split; [|split; [|split]]]]].
  - intros rest ->. change ("Bearer " +:+ s) with (String "B" ("earer " +:+ s)) at 1.
    cbn [String.eqb]. rewrite HasPrefix_append, TrimPrefix_append. cbn [negb].
    rewrite (proj2 (ConstantTimeCompare_spec s s) eq_refl). reflexivity.
  - intros ->. reflexivity.
  - intros ->. reflexivity.
  - intros rest ->. reflexivity.
  - intros v rest -> Hv Hp. apply String.eqb_neq in Hv. rewrite Hv, Hp. reflexivity.
  - intros k rest -> Hk. change ("Bearer " +:+ k) with (String "B" ("earer " +:+ k)) at 1.
    cbn [String.eqb]. rewrite HasPrefix_append, TrimPrefix_append. cbn [negb].
    destruct (Z.eqb (utils.ConstantTimeCompare (utils.bytes k) (utils.bytes s)) 1) eqn:E.
    + apply Z.eqb_eq, ConstantTimeCompare_spec in E. contradiction.
    + reflexivity.
  - intros msg Hfresh. unfold utils.RespondWithJSON, Http.Write, Http.WriteHeader,
      Http.SetHeader, utils.Encode.
    cbn [Http.Status Http.Written Http.RespHeader utils.Success utils.Data utils.Error].
    rewrite Hfresh. split; reflexivity.
Qed.

(** The four requests of the specification, secret [s3cret]. *)
Example auth_bearer_s3cret :
  utils.MiddlewareAPIAuth "s3cret" ok_handler Http.NewRecorder
    (bare_request {["Authorization" := ["Bearer s3cret"]]})
  = ok_handler Http.NewRecorder (bare_request {["Authorization" := ["Bearer s3cret"]]}).
Proof. reflexivity. Qed.

Example auth_header_absent :
  utils.MiddlewareAPIAuth "s3cret" ok_handler Http.NewRecorder (bare_request ∅)
  = deny Http.NewRecorder "Missing API Key".
Proof. reflexivity. Qed.

Example auth_token_s3cret :
  utils.MiddlewareAPIAuth "s3cret" ok_handler Http.NewRecorder
    (bare_request {["Authorization" := ["Token s3cret"]]})
  = deny Http.NewRecorder "Invalid Authorization format.".
Proof. reflexivity. Qed.

Example auth_bearer_wrong :
  utils.MiddlewareAPIAuth "s3cret" ok_handler Http.NewRecorder
    (bare_request {["Authorization" := ["Bearer wrong"]]})
  = deny Http.NewRecorder "Invalid API Key".
Proof. reflexivity. Qed.

(** ** Decoding request bodies *)

Section Decoding.
Context `{json.Lexical}.

Lemma unmarshal_object strict fields members :
  json.unmarshal strict (json.TStruct fields) (JObject members)
  = each_member strict fields members.
Proof.
  cbn [json.unmarshal]. induction members as [|[key x] members IH]; [reflexivity|].
  cbn [each_member]. rewrite <- IH. reflexivity.
Qed.

Lemma unmarshal_array strict elem items :
  json.unmarshal strict (json.TSlice elem) (JArray items) = each_item strict elem items.
Proof.
  cbn [json.unmarshal]. induction items as [|x items IH]; [reflexivity|].
  cbn [each_item]. rewrite <- IH. reflexivity.
Qed.

Lemma each_member_error strict fields l kx :
  In kx l -> member_error strict fields kx <> None -> each_member strict fields l <> None.
Proof.
  induction l as [|kx' l IH]; intros Hin Herr; [destruct Hin|].
  destruct Hin as [->|Hin]; cbn [each_member].
  - destruct (member_error strict fields kx); [discriminate | contradiction].
  - destruct (member_error strict fields kx'); [discriminate|]. cbn. apply IH; assumption.
Qed.

Lemma each_item_error strict elem l x :
  In x l -> json.unmarshal strict elem x <> None -> each_item strict elem l <> None.
Proof.
  induction l as [|x' l IH]; intros Hin Herr; [destruct Hin|].
  destruct Hin as [->|Hin]; cbn [each_item].
  - destruct (json.unmarshal strict elem x); [discriminate | contradiction].
  - destruct (json.unmarshal strict elem x'); [discriminate|]. cbn. apply IH; assumption.
Qed.

(** In strict mode a value with an unknown field is never decoded. *)
Lemma unmarshal_unknown (t : json.GoType) (v : JSON) :
  unknown_in t v -> json.unmarshal true t v <> None.
Proof.
  induction 1 as [fields members key x Hin Hnone
                 | fields members key x ft Hin Hsome _ IH
                 | elem items x Hin _ IH].
  - rewrite unmarshal_object. apply (each_member_error _ _ _ (key, x) Hin).
    unfold member_error. cbn [fst snd]. rewrite Hnone. discriminate.
  - rewrite unmarshal_object. apply (each_member_error _ _ _ (key, x) Hin).
    unfold member_error. cbn [fst snd]. rewrite Hsome. exact IH.
  - rewrite unmarshal_array. apply (each_item_error _ _ _ x Hin IH).
Qed.

Lemma take_bytes_length (n : nat) (s : string) : (String.length (Http.take_bytes n s) <= n)%nat.
Proof.
  revert s. induction n as [|n IH]; intros [|c s]; cbn; try lia.
  specialize (IH s). lia.
Qed.

Lemma MaxBytesReader_length (w : Http.ResponseWriter) (body : Http.Reader) (n : Z) :
  0 <= n ->
  Z.of_nat (String.length (Http.delivered (Http.MaxBytesReader w body n))) <= n.
Proof.
  intro Hn. unfold Http.MaxBytesReader.
  destruct (Z.leb (Z.of_nat (String.length (Http.delivered body))) n) eqn:E.
  - apply Z.leb_le, E.
  - cbn [Http.delivered]. pose proof (take_bytes_length (Z.to_nat n) (Http.delivered body)).
    lia.
Qed.

Lemma take_bytes_min (n : nat) (s : string) :
  String.length (Http.take_bytes n s) = Nat.min n (String.length s).
Proof.
  revert s. induction n as [|n IH]; intros [|c s]; cbn; try reflexivity.
  now rewrite IH.
Qed.

Lemma take_bytes_all (n : nat) (s : string) :
  (String.length s <= n)%nat -> Http.take_bytes n s = s.
Proof.
  revert s. induction n as [|n IH]; intros [|c s] Hlen; cbn in *; try reflexivity;
    try lia.
  f_equal. apply IH. lia.
Qed.

(** What a cap of [n] bytes delivers: the first [n] bytes, and the body
    ends as it did when it had no more than that. *)
Lemma MaxBytesReader_delivers (w : Http.ResponseWriter) (body : Http.Reader) (n : Z) :
  0 <= n ->
  Http.delivered (Http.MaxBytesReader w body n)
  = Http.take_bytes (Z.to_nat n) (Http.delivered body)
  /\ Http.ending (Http.MaxBytesReader w body n)
     = if Z.leb (Z.of_nat (String.length (Http.delivered body))) n
       then Http.ending body else Http.TooLarge.
Proof.
  intro Hn. unfold Http.MaxBytesReader.
  destruct (Z.leb_spec (Z.of_nat (String.length (Http.delivered body))) n).
  - split; [|reflexivity]. symmetry. apply take_bytes_all. lia.
  - split; reflexivity.
Qed.

Lemma DecodeJSON_body (w : Http.ResponseWriter) (r : Http.Request) (req : json.GoType) :
  Http.Body (fst (utils.DecodeJSON w r req)) = Http.MaxBytesReader w (Http.Body r) 65536.
Proof. unfold utils.DecodeJSON. destruct (json.Decode _ req); reflexivity. Qed.

Lemma DecodeJSON_error (w : Http.ResponseWriter) (r : Http.Request) (req : json.GoType) :
  snd (utils.DecodeJSON w r req)
  = json.Decode
      (json.DisallowUnknownFields
         (json.NewDecoder (Http.MaxBytesReader w (Http.Body r) 65536))) req.
Proof. unfold utils.DecodeJSON. cbn [Http.set_Body Http.Body]. destruct (json.Decode _ req); reflexivity. Qed.

(** C8. For every request, [DecodeJSON] reads the body through a reader
    capped at 64 KiB: the decoder gets the first 65536 bytes of the body
    and nothing after them, the ceiling being the same constant whatever
    the request, the response writer and the target; two requests whose
    bodies agree on those bytes and on whether there are more get the same
    answer, and a body whose first value is not complete within them is
    refused as too large. Decoding is strict: when the value scanned from
    the capped body has a key that names no field of the target struct,
    the call returns an error, whatever the other members are. *)
Theorem C8_decode_is_strict_and_capped (w : Http.ResponseWriter) (r : Http.Request)
    (req : json.GoType) :
  Http.Body (fst (utils.DecodeJSON w r req)) = Http.MaxBytesReader w (Http.Body r) 65536
  /\ Http.delivered (Http.Body (fst (utils.DecodeJSON w r req)))
     = Http.take_bytes (Z.to_nat 65536) (Http.delivered (Http.Body r))
  /\ Z.of_nat (String.length (Http.delivered (Http.Body (fst (utils.DecodeJSON w r req)))))
     <= 65536
  /\ snd (utils.DecodeJSON w r req)
     = json.Decode
         (json.DisallowUnknownFields
            (json.NewDecoder (Http.MaxBytesReader w (Http.Body r) 65536))) req
  /\ (forall (w2 : Http.ResponseWriter) (r2 : Http.Request),
        Http.take_bytes (Z.to_nat 65536) (Http.delivered (Http.Body r2))
        = Http.take_bytes (Z.to_nat 65536) (Http.delivered (Http.Body r)) ->
        65536 < Z.of_nat (String.length (Http.delivered (Http.Body r))) ->
        65536 < Z.of_nat (String.length (Http.delivered (Http.Body r2))) ->
        snd (utils.DecodeJSON w2 r2 req) = snd (utils.DecodeJSON w r req))
  /\ (65536 < Z.of_nat (String.length (Http.delivered (Http.Body r))) ->
      json.scan (Http.take_bytes (Z.to_nat 65536) (Http.delivered (Http.Body r)))
                Http.TooLarge = json.NeedMore ->
      snd (utils.DecodeJSON w r req) = Some json.MaxBytesError)
  /\ (forall v : JSON,
        json.scan (Http.delivered (Http.MaxBytesReader w (Http.Body r) 65536))
                  (Http.ending (Http.MaxBytesReader w (Http.Body r) 65536))
        = json.Complete v ->
        unknown_in req v ->
        exists err, snd (utils.DecodeJSON w r req) = Some err).
Proof.
  assert (Hbig : forall (w0 : Http.ResponseWriter) (r0 : Http.Request),
            65536 < Z.of_nat (String.length (Http.delivered (Http.Body r0))) ->
            Http.MaxBytesReader w0 (Http.Body r0) 65536
            = {| Http.delivered :=
                   Http.take_bytes (Z.to_nat 65536) (Http.delivered (Http.Body r0));
                 Http.ending := Http.TooLarge |}).
  { intros w0 r0 Hlen. unfold Http.MaxBytesReader.
    destruct (Z.leb_spec (Z.of_nat (String.length (Http.delivered (Http.Body r0)))) 65536);
      [lia | reflexivity]. }
  split; [apply DecodeJSON_body|].
  split; [rewrite DecodeJSON_body; apply MaxBytesReader_delivers; lia|].
  split; [rewrite DecodeJSON_body; apply MaxBytesReader_length; lia|].
  split; [apply DecodeJSON_error|].
  split; [|split].
  - intros w2 r2 Hsame Hlen Hlen2.
    rewrite !DecodeJSON_error, (Hbig w r Hlen), (Hbig w2 r2 Hlen2), Hsame. reflexivity.
  - intros Hlen Hopen. rewrite DecodeJSON_error, (Hbig w r Hlen).
    unfold json.Decode, json.DisallowUnknownFields, json.NewDecoder.
    cbn [json.src json.disallowUnknownFields Http.delivered Http.ending].
    rewrite Hopen. reflexivity.
  - intros v Hscan Hunknown. rewrite DecodeJSON_error.
    unfold json.Decode, json.DisallowUnknownFields, json.NewDecoder.
    cbn [json.src json.disallowUnknownFields]. rewrite Hscan.
    pose proof (unmarshal_unknown req v Hunknown) as Herr.
    destruct (json.unmarshal true req v) as [err|]; [|contradiction].
    exists err. reflexivity.
Qed.
End Decoding.

(** C8 on a contact form with the fields [name] and [email]: the body that
    also carries [admin] is refused for that key, the body without it is
    accepted. *)
Lemma C8_decode_is_strict_and_capped_witness :
  snd (utils.DecodeJSON (H := table_lexical contact_bodies) Http.NewRecorder
         (request_with_body contact_extra_body) contact_schema)
  = Some (json.UnknownField "admin")
  /\ snd (utils.DecodeJSON (H := table_lexical contact_bodies) Http.NewRecorder
            (request_with_body contact_ok_body) contact_schema)
     = None.
Proof.
  split; [|reflexivity].
  destruct (proj2 (proj2 (proj2 (proj2 (proj2 (proj2
              (C8_decode_is_strict_and_capped (H := table_lexical contact_bodies)
                 Http.NewRecorder (request_with_body contact_extra_body)
                 contact_schema))))))
              contact_extra eq_refl
              (unknown_here (H := table_lexical contact_bodies)
                 [("name", json.TString); ("email", json.TString)]
                 [("name", JString "Ada"); ("email", JString "ada@example.org");
                  ("admin", JBool true)]
                 "admin" (JBool true)
                 (or_intror (or_intror (or_introl eq_refl))) eq_refl))
    as [err Herr].
  rewrite Herr. vm_compute in Herr. symmetry. exact Herr.
Defined.

(** ** Trees built through the exported functions *)

Example provider_routes_are_versioned :
  exists r',
    SetupRoutes (New sample_stock sample_config) {| Providers := [sample_provider] |}
                sample_config = Ok r'
    /\ chi.Routes (internal r') = [("GET", "/api/v1/posts"); ("GET", "/health")].
Proof. eexists. split; reflexivity. Qed.

Example grouping_middleware_is_dropped :
  chi.Registrations (internal (registerWithChi bare_router tree_guarded_group ""))
  = [{| chi.reg_method := "GET"; chi.reg_path := "/admin/x";
        chi.reg_chain := []; chi.reg_handler := Some ok_handler |}].
Proof. reflexivity. Qed.

Example route_middleware_is_kept :
  chi.Registrations (internal (registerWithChi bare_router tree_guarded_route ""))
  = [{| chi.reg_method := "GET"; chi.reg_path := "/admin/x";
        chi.reg_chain := [utils.MiddlewareAPIAuth "s3cret"];
        chi.reg_handler := Some ok_handler |}].
Proof. reflexivity. Qed.

(** A sink with room for the first line only: the write of the second
    line fails and [writeRoute] returns from that node. *)
Example printer_stops_on_a_failed_write :
  writeRoute bare_router {| room := 9; text := "" |} tree_nested_handlers ""
  = {| room := 0; text := route_line "GET" "/a" |}.
Proof. reflexivity. Qed.

Lemma handlers_have_verbs_children (n : RouteNode) :
  handlers_have_verbs n <->
  (isNil (handler n) = false -> is_verb (method (info n)) = true)
  /\ Forall handlers_have_verbs (children n).
Proof.
  unfold handlers_have_verbs. rewrite List.Forall_forall. split.
  - intros Hn. split.
    + apply (Hn [route (info n)] n). constructor.
    + intros c Hc segs d Hp. apply (Hn (route (info n) :: segs) d).
      apply (path_below any_node n c); [exact I | exact Hc | exact Hp].
  - intros [Hown Hkids] segs d Hp.
    apply path_via_inv in Hp as [[-> ->] | (_ & c & rest & Hc & Hp & ->)].
    + exact Hown.
    + apply (Hkids c Hc rest d Hp).
Qed.

Lemma root0_has_verbs : handlers_have_verbs root0.
Proof. apply handlers_have_verbs_children. split; [discriminate | constructor]. Qed.

Lemma newRouteNode_has_verbs (n : RouteNode) (m : HTTPMethod) (p : string) (h : option Handler) :
  is_verb m = true -> handlers_have_verbs n ->
  handlers_have_verbs (fst (newRouteNode n m p h))
  /\ handlers_have_verbs (snd (newRouteNode n m p h)).
Proof.
  intros Hm Hn. cbn [newRouteNode fst snd].
  assert (Hleaf : handlers_have_verbs (leaf m p h)).
  { apply handlers_have_verbs_children. split; [intros _; exact Hm | constructor]. }
  split; [|exact Hleaf].
  apply handlers_have_verbs_children in Hn as [Hown Hkids].
  apply handlers_have_verbs_children. cbn [set_children handler info children].
  split; [exact Hown|]. apply Forall_app. split; [exact Hkids|].
  constructor; [exact Hleaf | constructor].
Qed.

Lemma With_has_verbs (n : RouteNode) (mws : list Middleware) :
  handlers_have_verbs n -> handlers_have_verbs (With n mws).
Proof.
  intros Hn. apply handlers_have_verbs_children in Hn.
  apply handlers_have_verbs_children. exact Hn.
Qed.

Lemma through_has_verbs (f : RouteNode -> RouteNode) (n : RouteNode) :
  (forall c, handlers_have_verbs c -> handlers_have_verbs (f c)) ->
  handlers_have_verbs n -> handlers_have_verbs (through f n).
Proof.
  intros Hf Hn. unfold through.
  destruct (rev (children n)) as [|c before] eqn:Erev; [exact Hn|].
  apply handlers_have_verbs_children in Hn as [Hown Hkids].
  apply handlers_have_verbs_children. cbn [set_children handler info children].
  split; [exact Hown|].
  assert (Hcs : children n = rev before ++ [c]).
  { rewrite <- (rev_involutive (children n)), Erev. reflexivity. }
  rewrite Hcs in Hkids. apply Forall_app in Hkids as [Hbefore Hc].
  apply Forall_app. split; [exact Hbefore|].
  constructor; [|constructor]. apply Hf. inversion Hc; assumption.
Qed.

Lemma Route_has_verbs (n : RouteNode) (p : string) (f : RouteNode -> RouteNode) :
  (forall c, handlers_have_verbs c -> handlers_have_verbs (f c)) ->
  handlers_have_verbs n -> handlers_have_verbs (Route n p f).
Proof.
  intros Hf Hn. rewrite Route_appends.
  apply handlers_have_verbs_children in Hn as [Hown Hkids].
  apply handlers_have_verbs_children. cbn [set_children handler info children].
  split; [exact Hown|]. apply Forall_app. split; [exact Hkids|].
  constructor; [|constructor]. apply Hf.
  apply handlers_have_verbs_children. split; [discriminate | constructor].
Qed.

(** ** The order of registration *)

Lemma flat_map_flat_map {A B C} (f : B -> list C) (g : A -> list B) (l : list A) :
  flat_map f (flat_map g l) = flat_map (fun a => flat_map f (g a)) l.
Proof.
  induction l as [|a l IH]; [reflexivity|].
  cbn [flat_map]. rewrite flat_map_app, IH. reflexivity.
Qed.

Lemma flat_map_ext_Forall {A B} (f g : A -> list B) (l : list A) :
  Forall (fun a => f a = g a) l -> flat_map f l = flat_map g l.
Proof.
  induction 1 as [|a l Ha _ IH]; [reflexivity|].
  cbn [flat_map]. now rewrite Ha, IH.
Qed.

(** Flattening what [registerWithChi] adds gives [served]: a mounted
    sub-router and a passed-on base path come to the same registrations. *)
Lemma flat_emitted (node : RouteNode) :
  forall (prefix : string) (scope : list Middleware) (basePath : string),
    flat_map (chi.registrations_of prefix scope) (emitted node basePath)
    = served scope node (prefix +:+ basePath).
Proof.
  induction node as [cs i mws h IH] using RouteNode_ind.
  intros prefix scope basePath.
  cbn [emitted served children info handler].
  set (cur := basePath +:+ route i).
  assert (Hcur : (prefix +:+ basePath) +:+ route i = prefix +:+ cur).
  { unfold cur. apply append_assoc. }
  rewrite Hcur.
  destruct (String.eqb (method i) Undefined && isNil h && Nat.ltb 0 (length cs)
            && Nat.ltb 0 (String.length cur)) eqn:Econd.
  - assert (h = None) as ->.
    { destruct h; [|reflexivity]. cbn in Econd. rewrite andb_false_r in Econd.
      discriminate. }
    cbn [flat_map chi.registrations_of]. rewrite !app_nil_r, flat_map_flat_map.
    apply flat_map_ext_Forall. eapply List.Forall_impl; [|exact IH].
    intros c Hc. rewrite Hc, append_empty_r. reflexivity.
  - destruct h as [h|].
    + destruct (is_verb (method i)); [|reflexivity].
      cbn [flat_map chi.registrations_of app]. reflexivity.
    + rewrite flat_map_flat_map. apply flat_map_ext_Forall.
      eapply List.Forall_impl; [|exact IH]. intros c Hc. apply Hc.
Qed.

Lemma registrations_in_order (r : routerWrapped) (root : RouteNode) (basePath : string) :
  chi.Registrations (internal (registerWithChi r root basePath))
  = chi.Registrations (internal r) ++ served (chi.stack (internal r)) root basePath.
Proof.
  rewrite registerWithChi_emitted. unfold chi.Registrations, add_routes.
  cbn [internal chi.stack chi.tree]. rewrite flat_map_app.
  f_equal. apply (flat_emitted root "" (chi.stack (internal r)) basePath).
Qed.

(** ** Slashes *)


Lemma begins_with_slash_append (a b : string) :
  a <> "" -> chi.begins_with_slash (a +:+ b) = chi.begins_with_slash a.
Proof. destruct a; [contradiction|]. reflexivity. Qed.

Lemma ends_with_slash_append (a b : string) :
  b <> "" -> chi.ends_with_slash (a +:+ b) = chi.ends_with_slash b.
Proof.
  intro Hb. induction a as [|c a IH]; [reflexivity|].
  rewrite append_cons. cbn [chi.ends_with_slash].
  destruct (a +:+ b) eqn:E; [|exact IH].
  destruct a; [cbn in E; contradiction | rewrite append_cons in E; discriminate].
Qed.

Lemma has_byte_append (c : ascii) (a b : string) :
  chi.has_byte c (a +:+ b) = chi.has_byte c a || chi.has_byte c b.
Proof.
  unfold chi.has_byte. induction a as [|x a IH]; [reflexivity|].
  rewrite append_cons. cbn [list_ascii_of_string existsb]. rewrite IH.
  now rewrite orb_assoc.
Qed.

Lemma plain_append (a b : string) : chi.plain (a +:+ b) = chi.plain a && chi.plain b.
Proof.
  unfold chi.plain. rewrite !has_byte_append.
  destruct (chi.has_byte "{" a), (chi.has_byte "{" b), (chi.has_byte "*" a),
    (chi.has_byte "*" b); reflexivity.
Qed.


Lemma strip_Some (p s tail : string) : chi.strip p s = Some tail -> s = p +:+ tail.
Proof.
  revert s. induction p as [|c p IH]; intros s.
  - destruct s; intros [= <-]; reflexivity.
  - destruct s as [|x s]; [discriminate|]. cbn [chi.strip].
    destruct (Ascii.eqb_spec x c) as [->|]; [|discriminate].
    intro Hs. rewrite append_cons. f_equal. apply IH, Hs.
Qed.

Lemma tidy_append (a b : string) : tidy a -> tidy b -> tidy (a +:+ b).
Proof.
  intros [->|[Ha1 Ha2]] Hb; [exact Hb|].
  assert (Hne : a <> "") by (intros ->; discriminate).
  destruct Hb as [->|[Hb1 Hb2]].
  - rewrite append_empty_r. right. auto.
  - right. split.
    + rewrite begins_with_slash_append; assumption.
    + rewrite ends_with_slash_append; [assumption|]. intros ->. discriminate.
Qed.

Lemma clean_tidy (s : string) : s = "" \/ clean s = true -> tidy s.
Proof.
  intros [->|Hc]; [left; reflexivity|]. right. unfold clean in Hc.
  apply andb_prop in Hc as [Hc _]. apply andb_prop in Hc as [Hb He].
  split; [exact Hb|]. now apply negb_true_iff.
Qed.

Lemma join_tidy (segs : list string) :
  Forall (fun s => s = "" \/ clean s = true) segs -> tidy (join segs).
Proof.
  induction 1 as [|s segs Hs _ IH]; [left; reflexivity|].
  cbn [join]. apply tidy_append; [apply clean_tidy, Hs | exact IH].
Qed.

Lemma slash_not_tidy : ~ tidy "/".
Proof. intros [E|[_ E]]; discriminate. Qed.

Lemma mount_base_tidy (p : string) : tidy p -> chi.mount_base p = p +:+ "/".
Proof.
  unfold chi.mount_base. intros [->|[_ ->]]; reflexivity.
Qed.

(** ** Clean trees *)

Lemma clean_tree_children (n : RouteNode) :
  clean_tree n <->
  (route (info n) = "" \/ clean (route (info n)) = true)
  /\ Forall clean_tree (children n).
Proof.
  unfold clean_tree. rewrite List.Forall_forall. split.
  - intros Hn. split.
    + apply (Hn [route (info n)] n). constructor.
    + intros c Hc segs d Hp. apply (Hn (route (info n) :: segs) d).
      apply (path_below any_node n c); [exact I | exact Hc | exact Hp].
  - intros [Hown Hkids] segs d Hp.
    apply path_via_inv in Hp as [[-> ->] | (_ & c & rest & Hc & Hp & ->)].
    + exact Hown.
    + apply (Hkids c Hc rest d Hp).
Qed.

Lemma path_segments (P : RouteNode -> Prop) (n : RouteNode) (segs : list string) (d : RouteNode) :
  path_via P n segs d -> clean_tree n ->
  Forall (fun s => s = "" \/ clean s = true) segs.
Proof.
  induction 1 as [n | n c segs d _ Hc _ IH]; intro Hclean;
    apply clean_tree_children in Hclean as [Hown Hkids].
  - constructor; [exact Hown | constructor].
  - constructor; [exact Hown|]. apply IH.
    rewrite List.Forall_forall in Hkids. apply Hkids, Hc.
Qed.

(** ** How a tree of registrations picks an entry *)

Lemma last_from_Some (f : chi.Entry -> bool) (l : list chi.Entry) :
  forall (i k : nat),
    chi.last_from f i l = Some k ->
    exists e, nth_error l (k - i) = Some e /\ f e = true /\ (i <= k)%nat.
Proof.
  induction l as [|e l IH]; intros i k; cbn [chi.last_from]; [discriminate|].
  destruct (chi.last_from f (S i) l) as [k'|] eqn:E.
  - intros [= <-]. destruct (IH (S i) k' E) as (e' & Hn & Hf & Hle).
    exists e'. replace (k' - i)%nat with (S (k' - S i)) by lia.
    cbn [nth_error]. repeat split; [exact Hn | exact Hf | lia].
  - destruct (f e) eqn:Ef; [|discriminate]. intros [= <-].
    exists e. rewrite Nat.sub_diag. repeat split; [exact Ef | lia].
Qed.

Lemma deepest_from_Some (path : string) (l : list chi.Entry) :
  forall (i k : nat) (tail : string),
    chi.deepest_from path i l = Some (k, tail) ->
    exists e, nth_error l (k - i) = Some e /\ chi.under path e = Some tail /\ (i <= k)%nat.
Proof.
  induction l as [|e l IH]; intros i k tail; cbn [chi.deepest_from]; [discriminate|].
  assert (Hrest : chi.deepest_from path (S i) l = Some (k, tail) ->
            exists e', nth_error (e :: l) (k - i) = Some e'
                       /\ chi.under path e' = Some tail /\ (i <= k)%nat).
  { intro E. destruct (IH (S i) k tail E) as (e' & Hn & Hu & Hle).
    exists e'. replace (k - i)%nat with (S (k - S i)) by lia.
    cbn [nth_error]. repeat split; [exact Hn | exact Hu | lia]. }
  assert (Hhere : forall t, chi.under path e = Some t -> Some (i, t) = Some (k, tail) ->
            exists e', nth_error (e :: l) (k - i) = Some e'
                       /\ chi.under path e' = Some tail /\ (i <= k)%nat).
  { intros t Hu [= <- <-]. exists e. rewrite Nat.sub_diag.
    repeat split; [exact Hu | lia]. }
  destruct (chi.under path e) as [t|] eqn:Eu.
  - destruct (chi.deepest_from path (S i) l) as [[k' t']|] eqn:E.
    + destruct (Nat.ltb (String.length t) (String.length t')).
      * apply (Hhere t eq_refl).
      * intro Hk. apply Hrest. exact Hk.
    + apply (Hhere t eq_refl).
  - exact Hrest.
Qed.

Lemma choose_Some (l : list chi.Entry) (m path : string) (i : nat) (next : string) :
  chi.choose l m path = Some (i, next) ->
  exists e, nth_error l i = Some e /\ selected m path next e.
Proof.
  unfold chi.choose.
  destruct (chi.last_from (chi.exact m path) 0 l) as [k|] eqn:E.
  - intros [= <- <-]. apply last_from_Some in E as (e & Hn & Hf & _).
    rewrite Nat.sub_0_r in Hn. exists e. split; [exact Hn|]. left. auto.
  - destruct (chi.deepest_from path 0 l) as [[k tail]|] eqn:Ed; [|discriminate].
    intros [= <- <-]. apply deepest_from_Some in Ed as (e & Hn & Hu & _).
    rewrite Nat.sub_0_r in Hn. exists e. split; [exact Hn|]. right. eauto.
Qed.

(** The answer of a mount is that of the entry its sub-router picks,
    behind the sub-router's own stack. *)
Lemma find_entry_Mount (p : string) (st : list Middleware) (sub : list chi.Entry)
    (m routePath : string) :
  chi.find_entry (chi.Mount p st sub) m routePath
  = match chi.choose sub m routePath with
    | None => None
    | Some (i, next) =>
        match nth_error sub i with
        | Some e =>
            match chi.find_entry e m next with
            | Some hit =>
                Some {| chi.hit_chain := st ++ chi.hit_chain hit;
                        chi.hit_handler := chi.hit_handler hit |}
            | None => None
            end
        | None => None
        end
    end.
Proof.
  cbn [chi.find_entry]. destruct (chi.choose sub m routePath) as [[i next]|]; [|reflexivity].
  revert i. induction sub as [|e sub IH]; intros [|i]; cbn [nth_error]; try reflexivity.
  apply IH.
Qed.

Lemma find_entry_Mount_Some (p : string) (st : list Middleware) (sub : list chi.Entry)
    (m routePath : string) (hit : chi.Hit) :
  chi.find_entry (chi.Mount p st sub) m routePath = Some hit ->
  exists e next hit',
    In e sub /\ selected m routePath next e
    /\ chi.find_entry e m next = Some hit'
    /\ hit = {| chi.hit_chain := st ++ chi.hit_chain hit';
                chi.hit_handler := chi.hit_handler hit' |}.
Proof.
  rewrite find_entry_Mount.
  destruct (chi.choose sub m routePath) as [[i next]|] eqn:Ec; [|discriminate].
  apply choose_Some in Ec as (e & Hn & Hsel). rewrite Hn.
  destruct (chi.find_entry e m next) as [hit'|] eqn:Ef; [|discriminate].
  intros [= <-]. exists e, next, hit'. repeat split; try assumption.
  eapply nth_error_In, Hn.
Qed.

(** ** Every request the dispatcher routes was declared *)

Lemma entry_sound (n : RouteNode) :
  clean_tree n ->
  forall (base : string) (e : chi.Entry) (m path next : string) (hit : chi.Hit),
    tidy base ->
    In e (emitted n base) ->
    selected m path next e ->
    chi.find_entry e m next = Some hit ->
    exists segs d,
      path_via grouping n segs d /\ isNil (handler d) = false
      /\ is_verb (method (info d)) = true
      /\ m = method (info d) /\ path = base +:+ join segs
      /\ hit = hit_for [] d.
Proof.
  induction n as [cs i mws h IH] using RouteNode_ind.
  intros Hclean base e m path next hit Hbase.
  apply clean_tree_children in Hclean as [Hown Hkids]. cbn [info children] in Hown, Hkids.
  rewrite List.Forall_forall in IH, Hkids.
  cbn [emitted children info handler].
  set (cur := base +:+ route i).
  assert (Hcur : tidy cur) by (apply tidy_append; [exact Hbase | apply clean_tidy, Hown]).
  assert (Hbelow : forall (base' : string) e' m' path' next' hit',
            h = None -> tidy base' ->
            In e' (flat_map (fun c => emitted c base') cs) ->
            selected m' path' next' e' ->
            chi.find_entry e' m' next' = Some hit' ->
            exists segs d,
              path_via grouping (mkRouteNode cs i mws h) (route i :: segs) d
              /\ isNil (handler d) = false /\ is_verb (method (info d)) = true
              /\ m' = method (info d) /\ path' = base' +:+ join segs
              /\ hit' = hit_for [] d).
  { intros base' e' m' path' next' hit' -> Hb' Hin Hsel Hfind.
    apply List.in_flat_map in Hin as (c & Hc & Hin).
    destruct (IH c Hc (Hkids c Hc) base' e' m' path' next' hit' Hb' Hin Hsel Hfind)
      as (segs & d & Hp & Hh & Hv & Hm & Hpath & Hhit).
    exists segs, d. repeat split; try assumption.
    apply (path_below grouping (mkRouteNode cs i mws None) c);
      [reflexivity | exact Hc | exact Hp]. }
  destruct (String.eqb (method i) Undefined && isNil h && Nat.ltb 0 (length cs)
            && Nat.ltb 0 (String.length cur)) eqn:Econd.
  - (* the node is mounted *)
    assert (h = None) as Hnil.
    { destruct h; [|reflexivity]. cbn in Econd. rewrite andb_false_r in Econd.
      discriminate. }
    assert (Hne : cur <> "").
    { intro E. rewrite E in Econd. cbn in Econd. rewrite andb_false_r in Econd.
      discriminate. }
    intros [<-|[]] Hsel Hfind.
    apply find_entry_Mount_Some in Hfind as (e' & next' & hit' & Hin & Hsel' & Hfind' & ->).
    destruct (Hbelow "" e' m next next' hit' Hnil (or_introl eq_refl) Hin Hsel' Hfind')
      as (segs & d & Hp & Hh & Hv & Hm & Hnext & Hhit).
    assert (Hnext' : next = join segs) by exact Hnext. clear Hnext.
    assert (Hsegs : tidy (join segs)).
    { apply join_tidy.
      assert (Hall : Forall (fun s => s = "" \/ clean s = true) (route i :: segs)).
      { eapply path_segments; [exact Hp|]. apply clean_tree_children. cbn [info children].
        split; [exact Hown | apply List.Forall_forall, Hkids]. }
      inversion Hall; assumption. }
    destruct Hsel as [[_ ->] | (tail & Hunder & ->)].
    + exfalso. apply slash_not_tidy. rewrite Hnext'. exact Hsegs.
    + exists (route i :: segs), d. repeat split; try assumption.
      * cbn [chi.under] in Hunder. rewrite (mount_base_tidy cur Hcur) in Hunder.
        apply strip_Some in Hunder. rewrite Hunder. cbn [join].
        rewrite <- Hnext'. unfold cur. rewrite !append_assoc. reflexivity.
      * rewrite Hhit. reflexivity.
  - destruct h as [h|].
    + (* the node is an endpoint *)
      destruct (is_verb (method i)) eqn:Ev; [|intros []].
      intros [<-|[]] Hsel Hfind. cbn [chi.find_entry] in Hfind. injection Hfind as <-.
      destruct Hsel as [[Hex _] | (tail & Hunder & _)]; [|discriminate Hunder].
      cbn [chi.exact] in Hex. apply andb_prop in Hex as [Hm Hp].
      apply String.eqb_eq in Hm, Hp.
      exists [route i], (mkRouteNode cs i mws (Some h)).
      cbn [join info handler isNil middlewares]. rewrite append_empty_r.
      repeat split; try assumption; try (symmetry; assumption).
      constructor.
    + (* the path is passed on to the children *)
      intros Hin Hsel Hfind.
      destruct (Hbelow cur e m path next hit eq_refl Hcur Hin Hsel Hfind)
        as (segs & d & Hp & Hh & Hv & Hm & Hpath & Hhit).
      exists (route i :: segs), d. repeat split; try assumption.
      rewrite Hpath. unfold cur. cbn [join]. apply append_assoc.
Qed.

Lemma registerWithChi_tree (r : routerWrapped) (root : RouteNode) (basePath : string) :
  chi.tree (internal r) = [] ->
  internal (registerWithChi r root basePath)
  = {| chi.stack := chi.stack (internal r); chi.tree := emitted root basePath |}.
Proof.
  intro Hempty. rewrite registerWithChi_emitted. unfold add_routes. cbn [internal].
  rewrite Hempty. reflexivity.
Qed.

Lemma find_sound (scope : list Middleware) (root : RouteNode) (m path : string)
    (hit : chi.Hit) :
  clean_tree root ->
  chi.find {| chi.stack := scope; chi.tree := emitted root "" |} m path = Some hit ->
  exists segs d,
    path_via grouping root segs d /\ isNil (handler d) = false
    /\ is_verb (method (info d)) = true
    /\ m = method (info d) /\ path = join segs
    /\ hit = hit_for scope d.
Proof.
  intros Hclean. unfold chi.find. cbn [chi.stack chi.tree].
  destruct (existsb (String.eqb m) chi.methods); [|discriminate].
  intro Hfind.
  apply find_entry_Mount_Some in Hfind as (e & next & hit' & Hin & Hsel & Hfind & ->).
  destruct (entry_sound root Hclean "" e m path next hit' (or_introl eq_refl) Hin Hsel Hfind)
    as (segs & d & Hp & Hh & Hv & Hm & Hpath & ->).
  exists segs, d. repeat split; assumption.
Qed.

(** ** Groups around one route *)







(** The groups of [segs] in a node that has no child yet. *)
Lemma grouped_shape (segs : list string) (add : RouteNode -> RouteNode) (s : string) :
  grouped segs add (leaf Undefined s None)
  = match segs with
    | [] => add (leaf Undefined s None)
    | seg :: rest =>
        mkRouteNode [grouped rest add (leaf Undefined seg None)]
                    {| method := Undefined; route := s |} [] None
    end.
Proof. destruct segs as [|seg rest]; [reflexivity|]. cbn [grouped]. apply Route_appends. Qed.

Lemma declare_shape (m p : string) (h : Handler) (s : string) :
  declare m p h (leaf Undefined s None)
  = mkRouteNode [leaf m p (Some h)] {| method := Undefined; route := s |} [] None.
Proof. reflexivity. Qed.





Lemma clean_tree_grouped_below (segs : list string) (m p : string) (h : Handler) :
  clean p = true -> Forall (fun s => clean s = true) segs ->
  forall s, s = "" \/ clean s = true ->
    clean_tree (grouped segs (declare m p h) (leaf Undefined s None)).
Proof.
  intros Hp. induction 1 as [|seg rest Hseg _ IH]; intros s Hs; rewrite grouped_shape;
    rewrite ?declare_shape; apply clean_tree_children; cbn [info route children].
  - split; [exact Hs|]. constructor; [|constructor].
    apply clean_tree_children. cbn [info route children]. split; [right; exact Hp | constructor].
  - split; [exact Hs|]. constructor; [|constructor]. apply IH. right. exact Hseg.
Qed.







Lemma find_listed (scope : list Middleware) (root : RouteNode) (m path : string)
    (hit : chi.Hit) :
  clean_tree root ->
  chi.find {| chi.stack := scope; chi.tree := emitted root "" |} m path = Some hit ->
  In (m, path) (listing root "").
Proof.
  intros Hclean Hfind.
  destruct (find_sound scope root m path hit Hclean Hfind)
    as (segs & d & Hp & Hh & Hv & Hm & Hpath & _).
  apply listing_paths. exists segs, d. repeat split; try assumption.
  - eapply path_via_weaken; [|exact Hp]. intros; exact I.
  - apply verb_not_Undefined, Hv.
Qed.



(** X3. On a tree whose segments are empty or begin with a slash, do not
    end with one and hold no [{] and no [*], every request that the
    dispatcher, having taken the registrations, routes to a handler was
    declared and is on the printed list: the
    handler is that of a node reached through grouping nodes only, the
    path of the request is the concatenation of the segments down to that
    node, the method is the node's, the middlewares are the dispatcher's
    [Use] stack followed by the node's own, and [writeRoute] prints the
    line of that method and path. *)
Theorem served_requests_are_listed (r : routerWrapped) (root : RouteNode)
    (m path : string) (hit : chi.Hit)
    (Hclean : clean_tree root) (Hempty : chi.tree (internal r) = [])
    (Htaken : chi.replay (internal (registerWithChi r root "")) = chi.Accepts)
    (Hfind : chi.find (internal (registerWithChi r root "")) m path = Some hit) :
  In (route_line m path) (writeRoute r ([] : list string) root "")
  /\ exists segs d,
       path_via grouping root segs d /\ isNil (handler d) = false
       /\ m = method (info d) /\ path = join segs
       /\ hit = hit_for (chi.stack (internal r)) d.
Proof.
  rewrite (registerWithChi_tree r root "" Hempty) in Hfind. split.
  - rewrite writeRoute_lines. cbn [app]. apply in_map_iff.
    exists (m, path). split; [reflexivity|]. eapply find_listed; eassumption.
  - destruct (find_sound _ root m path hit Hclean Hfind)
      as (segs & d & Hp & Hh & Hv & Hm & Hpath & Hhit).
    exists segs, d. repeat split; assumption.
Qed.

(** X3 on the nested groups of [/a/b/c]. *)
Lemma served_requests_are_listed_witness :
  In (route_line "GET" "/a/b/c") (writeRoute bare_router ([] : list string) tree_abc "").
Proof.
  assert (Hclean : clean_tree tree_abc).
  { change tree_abc with (grouped ["/a"; "/b"] (declare GET "/c" ok_handler)
                                  (leaf Undefined "" None)).
    apply clean_tree_grouped_below; [reflexivity | repeat constructor | left; reflexivity]. }
  exact (proj1 (served_requests_are_listed bare_router tree_abc "GET" "/a/b/c"
                  {| chi.hit_chain := []; chi.hit_handler := Some ok_handler |}
                  Hclean eq_refl eq_refl eq_refl)).
Defined.

(** ** The printer on a sink that fails *)

Lemma printed_dec (d : RouteNode) :
  negb (isNil (handler d)) && negb (String.eqb (method (info d)) Undefined) = true
  <-> printed d.
Proof.
  unfold printed. rewrite andb_true_iff, !negb_true_iff, String.eqb_neq. tauto.
Qed.

(** X5. Whatever the sink does, [writeRoute] attempts lines of the
    listing only, in the listing's order, each failed or not; when no
    attempt fails it attempts them all; and a node whose line it does not
    attempt lies below a node whose line it attempted without success:
    a failed write hides the subtree of its node and nothing else.
    Keeping a record of the attempts changes nothing for the sink. *)
Theorem printer_attempts_follow_the_listing `{Writer W} (r : routerWrapped)
    (node : RouteNode) :
  forall (w : W) (seen : list (string * bool)) (basePath : string),
    fst (writeRoute r (w, seen) node basePath) = writeRoute r w node basePath
    /\ exists attempts,
         snd (writeRoute r (w, seen) node basePath) = seen ++ attempts
         /\ sublist (map fst attempts) (map line_of (listing node basePath))
         /\ (Forall (fun a => snd a = false) attempts ->
             map fst attempts = map line_of (listing node basePath))
         /\ (forall segs d,
               path_via any_node node segs d -> printed d ->
               In (route_line (method (info d)) (basePath +:+ join segs)) (map fst attempts)
               \/ exists segs1 a segs2,
                    path_via any_node node segs1 a /\ path_via any_node a segs2 d
                    /\ (1 < length segs2)%nat /\ printed a
                    /\ In (route_line (method (info a)) (basePath +:+ join segs1), true)
                          attempts).
Proof.
  induction node as [cs i mws h IH] using RouteNode_ind. intros w seen basePath.
  cbn [writeRoute listing children info handler].
  set (cur := basePath +:+ route i).
  assert (Hkids : forall w0 seen0,
    fst (fold_left (fun wl child => writeRoute r wl child cur) cs (w0, seen0))
    = fold_left (fun w1 child => writeRoute r w1 child cur) cs w0
    /\ exists attempts,
         snd (fold_left (fun wl child => writeRoute r wl child cur) cs (w0, seen0))
         = seen0 ++ attempts
         /\ sublist (map fst attempts)
              (map line_of (flat_map (fun child => listing child cur) cs))
         /\ (Forall (fun a => snd a = false) attempts ->
             map fst attempts
             = map line_of (flat_map (fun child => listing child cur) cs))
         /\ (forall c segs d,
               In c cs -> path_via any_node c segs d -> printed d ->
               In (route_line (method (info d)) (cur +:+ join segs)) (map fst attempts)
               \/ exists segs1 a segs2,
                    path_via any_node c segs1 a /\ path_via any_node a segs2 d
                    /\ (1 < length segs2)%nat /\ printed a
                    /\ In (route_line (method (info a)) (cur +:+ join segs1), true)
                          attempts)).
  { clear -IH. induction cs as [|c cs IHcs]; intros w0 seen0.
    - cbn. split; [reflexivity|]. exists []. rewrite app_nil_r.
      split; [reflexivity|]. split; [constructor|]. split; [reflexivity|].
      intros c segs d [].
    - inversion IH as [|? ? Hc Hcs]; subst. cbn [fold_left flat_map].
      destruct (Hc w0 seen0 cur) as (Hfst & att1 & Hsnd & Hsub1 & Hall1 & Hcov1).
      destruct (writeRoute r (w0, seen0) c cur) as [w1 seen1] eqn:E1.
      cbn [fst snd] in Hfst, Hsnd. subst w1 seen1.
      destruct (IHcs Hcs (writeRoute r w0 c cur) (seen0 ++ att1))
        as (Hfst2 & att2 & Hsnd2 & Hsub2 & Hall2 & Hcov2).
      split; [exact Hfst2|]. exists (att1 ++ att2). rewrite Hsnd2, <- app_assoc.
      split; [reflexivity|]. rewrite !map_app.
      split; [apply sublist_app; assumption|]. split.
      + intros Hok. apply Forall_app in Hok as [Hok1 Hok2].
        rewrite (Hall1 Hok1), (Hall2 Hok2). reflexivity.
      + intros c' segs d [<-|Hin] Hp Hd.
        * destruct (Hcov1 segs d Hp Hd) as [Hl | (segs1 & a & segs2 & H1 & H2 & H3 & H4 & H5)].
          -- left. apply in_or_app. left. exact Hl.
          -- right. exists segs1, a, segs2.
             split; [|split; [|split; [|split]]]; try assumption.
             apply in_or_app. left. exact H5.
        * destruct (Hcov2 c' segs d Hin Hp Hd)
            as [Hl | (segs1 & a & segs2 & H1 & H2 & H3 & H4 & H5)].
          -- left. apply in_or_app. right. exact Hl.
          -- right. exists segs1, a, segs2.
             split; [|split; [|split; [|split]]]; try assumption.
             apply in_or_app. right. exact H5. }
  assert (Hlift : forall attempts extra,
    (forall c segs d,
       In c cs -> path_via any_node c segs d -> printed d ->
       In (route_line (method (info d)) (cur +:+ join segs)) (map fst attempts)
       \/ exists segs1 a segs2,
            path_via any_node c segs1 a /\ path_via any_node a segs2 d
            /\ (1 < length segs2)%nat /\ printed a
            /\ In (route_line (method (info a)) (cur +:+ join segs1), true) attempts) ->
    forall c rest d,
      In c cs -> path_via any_node c rest d -> printed d ->
      In (route_line (method (info d)) (basePath +:+ join (route i :: rest)))
         (map fst (extra ++ attempts))
      \/ exists segs1 a segs2,
           path_via any_node (mkRouteNode cs i mws h) segs1 a
           /\ path_via any_node a segs2 d
           /\ (1 < length segs2)%nat /\ printed a
           /\ In (route_line (method (info a)) (basePath +:+ join segs1), true)
                 (extra ++ attempts)).
  { intros attempts extra Hcov c rest d Hc Hp Hd.
    assert (Hjoin : forall l, basePath +:+ join (route i :: l) = cur +:+ join l).
    { intro l. cbn [join]. unfold cur. symmetry. apply append_assoc. }
    destruct (Hcov c rest d Hc Hp Hd) as [Hl | (segs1 & a & segs2 & H1 & H2 & H3 & H4 & H5)].
    - left. rewrite Hjoin, map_app. apply in_or_app. right. exact Hl.
    - right. exists (route i :: segs1), a, segs2. rewrite Hjoin.
      split; [|split; [|split; [|split]]]; try assumption.
      + apply (path_below any_node (mkRouteNode cs i mws h) c); [exact I | exact Hc | exact H1].
      + apply in_or_app. right. exact H5. }
  assert (Hown : basePath +:+ join [route i] = cur).
  { cbn [join]. now rewrite append_empty_r. }
  destruct (negb (isNil h) && negb (String.eqb (method i) Undefined)) eqn:Eprint.
  - assert (Hrec : Fprintf_route (w, seen) (method i) cur
                   = ((fst (Fprintf_route w (method i) cur),
                       seen ++ [(route_line (method i) cur,
                                 failed (snd (Fprintf_route w (method i) cur)))]),
                      snd (Fprintf_route w (method i) cur))).
    { unfold Fprintf_route. unfold Fprint at 1, Recording_Writer. cbn [fst snd].
      destruct (Fprint w (route_line (method i) cur)); reflexivity. }
    rewrite Hrec. clear Hrec.
    destruct (Fprintf_route w (method i) cur) as [w' [e|]] eqn:E; cbn [fst snd failed].
    + split; [reflexivity|]. exists [(route_line (method i) cur, true)].
      split; [reflexivity|]. cbn [app map fst].
      split; [apply sublist_skip, sublist_nil_l|]. split.
      * intro Hok. inversion Hok as [|? ? Hbad _]. discriminate Hbad.
      * intros segs d Hp Hd.
        apply path_via_inv in Hp as [[-> ->] | (_ & c & rest & Hc & Hp & ->)].
        -- left. cbn [info]. rewrite Hown. left. reflexivity.
        -- right. exists [route i], (mkRouteNode cs i mws h), (route i :: rest).
           cbn [info]. rewrite Hown. split; [|split; [|split; [|split]]].
           ++ apply (path_here any_node (mkRouteNode cs i mws h)).
           ++ apply (path_below any_node (mkRouteNode cs i mws h) c);
                [exact I | exact Hc | exact Hp].
           ++ destruct rest; [inversion Hp | cbn; lia].
           ++ apply printed_dec. exact Eprint.
           ++ left. reflexivity.
    + destruct (Hkids w' (seen ++ [(route_line (method i) cur, false)]))
        as (Hfst & att & Hsnd & Hsub & Hall & Hcov).
      split; [exact Hfst|]. exists ((route_line (method i) cur, false) :: att).
      rewrite Hsnd, <- app_assoc. split; [reflexivity|].
      cbn [app map fst]. split; [apply sublist_skip, Hsub|]. split.
      * intro Hok. inversion Hok as [|? ? _ Hok']; subst. now rewrite (Hall Hok').
      * intros segs d Hp Hd.
        apply path_via_inv in Hp as [[-> ->] | (_ & c & rest & Hc & Hp & ->)].
        -- left. cbn [info]. rewrite Hown. left. reflexivity.
        -- apply (Hlift att [(route_line (method i) cur, false)] Hcov c rest d Hc Hp Hd).
  - cbn [app]. destruct (Hkids w seen) as (Hfst & att & Hsnd & Hsub & Hall & Hcov).
    split; [exact Hfst|]. exists att. split; [exact Hsnd|].
    split; [exact Hsub|]. split; [exact Hall|].
    intros segs d Hp Hd.
    apply path_via_inv in Hp as [[-> ->] | (_ & c & rest & Hc & Hp & ->)].
    + apply printed_dec in Hd. cbn [handler info] in Hd. rewrite Hd in Eprint. discriminate.
    + apply (Hlift att [] Hcov c rest d Hc Hp Hd).
Qed.

(** ** What the dispatcher makes of some trees *)

(** A group declared at the path of a route declared before it: the
    printer lists the route, the dispatcher takes both registrations and
    the mount takes over the node of the path, so that the route is no
    longer served while the routes of the group are. *)
Example group_takes_over_a_route :
  listing tree_route_then_group "" = [("GET", "/a"); ("GET", "/a/x")]
  /\ chi.replay (internal (registerWithChi bare_router tree_route_then_group ""))
     = chi.Accepts
  /\ chi.find (internal (registerWithChi bare_router tree_route_then_group "")) "GET" "/a"
     = None
  /\ chi.find (internal (registerWithChi bare_router tree_route_then_group "")) "GET" "/a/x"
     = Some {| chi.hit_chain := []; chi.hit_handler := Some ok_handler |}.
Proof. repeat split; reflexivity. Qed.

(** Two groups declared at one path: the dispatcher panics at the second
    mount. *)
Example two_groups_at_one_path :
  chi.replay (internal (registerWithChi bare_router tree_two_groups "")) = chi.Panics.
Proof. reflexivity. Qed.

(** A module that declares a route without a leading slash below
    [/api/v1]: the materializer asks for the pattern [posts] on the
    sub-router, at which the dispatcher panics. *)
Example module_route_without_slash :
  exists r',
    SetupRoutes (New sample_stock sample_config)
      {| Providers := [{| RegisterRoutes := fun n _ => fst (Get n "posts" (Some ok_handler)) |}] |}
      sample_config = Ok r'
    /\ chi.replay (internal r') = chi.Panics.
Proof. eexists. split; reflexivity. Qed.

(** ** SetupRoutes with feature modules *)

Lemma HasPrefix_refl (s : string) : utils.HasPrefix s s = true.
Proof. rewrite <- (append_empty_r s) at 1. apply HasPrefix_append. Qed.

Lemma HasPrefix_shorter (s a b : string) :
  utils.HasPrefix s (a +:+ b) = true -> utils.HasPrefix s a = true.
Proof.
  intro Hp. apply HasPrefix_split in Hp. rewrite Hp, append_assoc.
  apply HasPrefix_append.
Qed.

(** Every registration of a node lies under the node's own path. *)
Lemma served_under_node (scope : list Middleware) (node : RouteNode) :
  forall basePath g,
    In g (served scope node basePath) ->
    utils.HasPrefix (chi.reg_path g) (basePath +:+ route (info node)) = true.
Proof.
  induction node as [cs i mws h IH] using RouteNode_ind. intros basePath g.
  cbn [served children info handler]. destruct h as [h|].
  - destruct (is_verb (method i)); [|intros []].
    intros [<-|[]]. cbn. apply HasPrefix_refl.
  - rewrite List.in_flat_map. intros (c & Hc & Hin).
    rewrite List.Forall_forall in IH. apply (IH c Hc) in Hin.
    apply HasPrefix_shorter in Hin. exact Hin.
Qed.

Lemma providers_keep_info (cfg : config.Config) (ps : list RouteProvider) :
  Forall (keeps_info cfg) ps ->
  forall n, info (fold_left (fun n p => RegisterRoutes p n cfg) ps n) = info n.
Proof.
  induction 1 as [|p ps Hp _ IH]; intro n; [reflexivity|].
  cbn [fold_left]. rewrite IH. apply Hp.
Qed.

Lemma SetupRoutes_registrations (lib : chi.Stock) (cfg : config.Config)
    (context : RoutingContext) :
  exists r',
    SetupRoutes (New lib cfg) context cfg = Ok r'
    /\ chi.Registrations (internal r')
       = served (chi.stack (internal (New lib cfg)))
                (fold_left (fun n p => RegisterRoutes p n cfg) (Providers context)
                           (leaf Undefined apiRoot None)) ""
         ++ [health_registration (chi.stack (internal (New lib cfg)))].
Proof.
  eexists. split; [reflexivity|].
  rewrite registrations_in_order. cbn [internal New chi.Registrations chi.Use
    chi.NewRouter chi.tree chi.stack flat_map app].
  rewrite Route_appends. reflexivity.
Qed.

(** ** The health route on the dispatcher *)







(** X7. When every feature module leaves the method and the path segment
    of the node it is given untouched, every route the dispatcher holds
    after [SetupRoutes] on a new wrapper is [GET /health] or has a full
    path that begins with [/api/v1]. *)
Theorem module_routes_are_versioned (lib : chi.Stock) (cfg : config.Config)
    (context : RoutingContext)
    (Hkeep : Forall (keeps_info cfg) (Providers context)) :
  exists r',
    SetupRoutes (New lib cfg) context cfg = Ok r'
    /\ forall m p,
         In (m, p) (chi.Routes (internal r')) ->
         (m, p) = ("GET", "/health") \/ utils.HasPrefix p "/api/v1" = true.
Proof.
  destruct (SetupRoutes_registrations lib cfg context) as (r' & Hok & Hregs).
  exists r'. split; [exact Hok|]. intros m p. unfold chi.Routes.
  rewrite Hregs, map_app, in_app_iff, in_map_iff.
  intros [(g & Hg & Hin) | [Hh|[]]].
  - right. apply served_under_node in Hin.
    rewrite (providers_keep_info cfg _ Hkeep) in Hin.
    injection Hg as _ <-. exact Hin.
  - left. symmetry. exact Hh.
Qed.

(** X7 with the one-route module: its route is served under [/api/v1]. *)
Lemma module_routes_are_versioned_witness :
  exists r',
    SetupRoutes (New sample_stock sample_config) {| Providers := [sample_provider] |}
                sample_config = Ok r'
    /\ forall m p,
         In (m, p) (chi.Routes (internal r')) ->
         (m, p) = ("GET", "/health") \/ utils.HasPrefix p "/api/v1" = true.
Proof.
  apply (module_routes_are_versioned sample_stock sample_config
           {| Providers := [sample_provider] |}).
  repeat constructor.
Defined.

(** X9. The exported functions keep two things true of a tree that
    starts as the root of [New]: every node with a handler has one of the
    four methods (so no [Undefined] node carries a handler), and the node
    a function is called on keeps its own method, path segment and
    handler. *)
Theorem exported_functions_keep_the_tree_well_formed :
  handlers_have_verbs root0
  /\ (forall n p h,
        handlers_have_verbs n ->
        handlers_have_verbs (fst (Get n p h)) /\ handlers_have_verbs (fst (Post n p h))
        /\ handlers_have_verbs (fst (Put n p h))
        /\ handlers_have_verbs (fst (Delete n p h)))
  /\ (forall n p f,
        (forall c, handlers_have_verbs c -> handlers_have_verbs (f c)) ->
        handlers_have_verbs n -> handlers_have_verbs (Route n p f))
  /\ (forall n mws, handlers_have_verbs n -> handlers_have_verbs (With n mws))
  /\ (forall f n,
        (forall c, handlers_have_verbs c -> handlers_have_verbs (f c)) ->
        handlers_have_verbs n -> handlers_have_verbs (through f n))
  /\ (forall n m p h f mws,
        info (fst (newRouteNode n m p h)) = info n
        /\ handler (fst (newRouteNode n m p h)) = handler n
        /\ info (Route n p f) = info n /\ handler (Route n p f) = handler n
        /\ info (With n mws) = info n /\ handler (With n mws) = handler n
        /\ info (through f n) = info n /\ handler (through f n) = handler n).
Proof.
  split; [apply root0_has_verbs|]. split.
  { intros n p h Hn. repeat split; apply newRouteNode_has_verbs; auto. }
  split; [intros n p f; apply Route_has_verbs|].
  split; [intros n mws; apply With_has_verbs|].
  split; [intros f n; apply through_has_verbs|].
  intros n m p h f mws. rewrite Route_appends.
  assert (Hthrough : info (through f n) = info n /\ handler (through f n) = handler n).
  { unfold through. destruct (rev (children n)); split; reflexivity. }
  destruct Hthrough. repeat split; assumption.
Qed.

(** ** More on decoding *)

Section DecodingMore.
Context `{json.Lexical}.

Lemma each_member_None strict fields l :
  each_member strict fields l = None <->
  Forall (fun kx => member_error strict fields kx = None) l.
Proof.
  induction l as [|kx l IH]; cbn [each_member].
  - split; [constructor | reflexivity].
  - rewrite List.Forall_cons_iff, <- IH.
    destruct (member_error strict fields kx); cbn; split; try tauto;
      try discriminate; intros [? ?]; discriminate.
Qed.

Lemma each_item_None strict elem l :
  each_item strict elem l = None <->
  Forall (fun x => json.unmarshal strict elem x = None) l.
Proof.
  induction l as [|x l IH]; cbn [each_item].
  - split; [constructor | reflexivity].
  - rewrite List.Forall_cons_iff, <- IH.
    destruct (json.unmarshal strict elem x); cbn; split; try tauto;
      try discriminate; intros [? ?]; discriminate.
Qed.

(** Strict mode adds nothing but the refusal of unknown fields. *)
Lemma strict_is_lenient_without_unknown (v : JSON) :
  forall t : json.GoType,
    json.unmarshal true t v = None <->
    json.unmarshal false t v = None /\ ~ unknown_in t v.
Proof.
  induction v as [| b | z | s | items IH | members IH] using JSON_ind; intro t.
  1-4: destruct t; cbn; split; try (intros [? _]; assumption);
       intro Ht; (split; [exact Ht | intro Hu; inversion Hu]).
  - destruct t as [| | | | elem | fields];
      try (cbn; split; [intro Ht; (split; [exact Ht | intro Hu; inversion Hu])
                       | intros [? _]; assumption]).
    rewrite !unmarshal_array, !each_item_None. rewrite List.Forall_forall in IH.
    rewrite !List.Forall_forall. split.
    + intros Hall. split.
      * intros x Hx. apply (IH x Hx elem), Hall, Hx.
      * intro Hu. inversion Hu as [| |? ? x Hx Hux]; subst.
        apply (IH x Hx elem) in Hux; [exact Hux | apply Hall, Hx].
    + intros [Hall Hno] x Hx. apply (IH x Hx elem). split; [apply Hall, Hx|].
      intro Hux. apply Hno. econstructor; eassumption.
  - destruct t as [| | | | elem | fields];
      try (cbn; split; [intro Ht; (split; [exact Ht | intro Hu; inversion Hu])
                       | intros [? _]; assumption]).
    rewrite !unmarshal_object, !each_member_None. rewrite List.Forall_forall in IH.
    rewrite !List.Forall_forall. unfold member_error. split.
    + intros Hall. split.
      * intros [k x] Hx. specialize (Hall (k, x) Hx). cbn [fst snd] in *.
        destruct (json.find_field k fields) as [ft|]; [|discriminate].
        apply (IH (k, x) Hx ft), Hall.
      * intro Hu. inversion Hu as [? ? k x Hx Hnone | ? ? k x ft Hx Hsome Hux |]; subst.
        -- specialize (Hall (k, x) Hx). cbn [fst snd] in Hall. rewrite Hnone in Hall.
           discriminate.
        -- specialize (Hall (k, x) Hx). cbn [fst snd] in Hall. rewrite Hsome in Hall.
           apply (IH (k, x) Hx ft) in Hall. apply (proj2 Hall), Hux.
    + intros [Hall Hno] [k x] Hx. specialize (Hall (k, x) Hx). cbn [fst snd] in *.
      destruct (json.find_field k fields) as [ft|] eqn:Ef.
      * apply (IH (k, x) Hx ft). split; [exact Hall|].
        intro Hux. apply Hno. eapply unknown_below; eassumption.
      * exfalso. apply Hno. eapply unknown_here; eassumption.
Qed.

(** X10. [DecodeJSON] returns no error exactly when the capped body holds
    a complete value that a decoder without [DisallowUnknownFields] would
    accept and that has no field unknown to the target: strictness refuses
    unknown fields and nothing else. *)
Theorem DecodeJSON_accepts_exactly (w : Http.ResponseWriter) (r : Http.Request)
    (req : json.GoType) :
  snd (utils.DecodeJSON w r req) = None <->
  exists v,
    json.scan (Http.delivered (Http.MaxBytesReader w (Http.Body r) 65536))
              (Http.ending (Http.MaxBytesReader w (Http.Body r) 65536))
    = json.Complete v
    /\ json.unmarshal false req v = None
    /\ ~ unknown_in req v.
Proof.
  unfold utils.DecodeJSON, json.Decode, json.DisallowUnknownFields, json.NewDecoder.
  cbn [json.src json.disallowUnknownFields Http.set_Body Http.Body].
  change (Z.shiftl 64 10) with 65536.
  destruct (json.scan _ _) as [v| |msg] eqn:Escan.
  - pose proof (strict_is_lenient_without_unknown v req) as Hs.
    destruct (json.unmarshal true req v) as [err|] eqn:Eu; cbn [snd].
    + split; [discriminate|]. intros (v' & [= <-] & Hl & Hno).
      destruct Hs as [_ Hs]. specialize (Hs (conj Hl Hno)). discriminate.
    + split; [|reflexivity]. intros _. exists v. split; [reflexivity|].
      apply Hs. reflexivity.
  - destruct (Http.ending _); [destruct (json.nonSpace _)|]; cbn [snd]; split;
      try discriminate; intros (v & Hv & _); discriminate.
  - cbn [snd]. split; [discriminate|]. intros (v & Hv & _). discriminate.
Qed.

End DecodingMore.

(** ** The size ceiling *)

Lemma take_bytes_twice (m n : nat) (s : string) :
  (m <= n)%nat -> Http.take_bytes m (Http.take_bytes n s) = Http.take_bytes m s.
Proof.
  revert n s. induction m as [|m IH]; intros [|n] [|c s] Hmn; cbn; try reflexivity;
    try lia.
  f_equal. apply IH. lia.
Qed.

(** Two caps in a row are the smaller one. *)
Lemma MaxBytesReader_nested (w : Http.ResponseWriter) (b : Http.Reader) (n m : Z) :
  0 <= n -> 0 <= m ->
  Http.MaxBytesReader w (Http.MaxBytesReader w b n) m
  = Http.MaxBytesReader w b (Z.min n m).
Proof.
  intros Hn Hm. unfold Http.MaxBytesReader at 2.
  destruct (Z.leb (Z.of_nat (String.length (Http.delivered b))) n) eqn:En.
  - apply Z.leb_le in En. unfold Http.MaxBytesReader.
    destruct (Z.leb_spec (Z.of_nat (String.length (Http.delivered b))) m);
      destruct (Z.leb_spec (Z.of_nat (String.length (Http.delivered b))) (Z.min n m));
      try reflexivity; try lia.
    replace (Z.min n m) with m by lia. reflexivity.
  - apply Z.leb_gt in En. unfold Http.MaxBytesReader. cbn [Http.delivered].
    rewrite take_bytes_min.
    destruct (Z.leb_spec (Z.of_nat (String.length (Http.delivered b))) (Z.min n m));
      [lia|].
    destruct (Z.leb_spec (Z.of_nat (Nat.min (Z.to_nat n) (String.length (Http.delivered b)))) m).
    + replace (Z.min n m) with n by lia. reflexivity.
    + replace (Z.min n m) with m by lia. f_equal. apply take_bytes_twice. lia.
Qed.

(** X12. Behind a request-size limit of [n] bytes, as [router.New]
    installs one from the configuration, [DecodeJSON] reads through the
    smaller of the two ceilings: with a limit below 64 KiB its own cap
    never comes into play. *)
Theorem DecodeJSON_behind_a_size_limit `{json.Lexical} (w : Http.ResponseWriter)
    (r : Http.Request) (req : json.GoType) (n : Z) (Hn : 0 <= n) :
  Http.Body (fst (utils.DecodeJSON w
                    (Http.set_Body r (Http.MaxBytesReader w (Http.Body r) n)) req))
  = Http.MaxBytesReader w (Http.Body r) (Z.min n 65536).
Proof.
  rewrite DecodeJSON_body. cbn [Http.set_Body Http.Body].
  apply MaxBytesReader_nested; lia.
Qed.

(** X12 with the 10 KiB limit of the configuration and a body of 20000
    bytes: 10240 bytes are delivered. *)
Lemma DecodeJSON_behind_a_size_limit_witness :
  Z.of_nat (String.length
    (Http.delivered
       (Http.Body
          (fst (utils.DecodeJSON (H := table_lexical contact_bodies) Http.NewRecorder
                  (Http.set_Body (request_with_body (filler (Z.to_nat 20000)))
                     (Http.MaxBytesReader Http.NewRecorder
                        (Http.Body (request_with_body (filler (Z.to_nat 20000))))
                        (config.RequestSizeLimit (config.Server sample_config))))
                  contact_schema)))))
  = 10240.
Proof.
  rewrite (DecodeJSON_behind_a_size_limit (H := table_lexical contact_bodies) Http.NewRecorder
             (request_with_body (filler (Z.to_nat 20000))) contact_schema
             (config.RequestSizeLimit (config.Server sample_config))
             ltac:(vm_compute; discriminate)).
  vm_compute. reflexivity.
Defined.

(** ** Reading the environment *)

Lemma and_then_Returned {A B} (x : outcome A) (k : A -> outcome B) (b : B) :
  x ≫= k = Returned b -> exists a, x = Returned a /\ k a = Returned b.
Proof. destruct x; cbn; [eauto | discriminate..]. Qed.

Lemma and_then_Failed {A B} (x : outcome A) (k : A -> outcome B) (e : string) :
  x ≫= k = Failed e -> x = Failed e \/ exists a, x = Returned a /\ k a = Failed e.
Proof. destruct x; cbn; [eauto | intros [= ->]; auto | discriminate]. Qed.

Lemma Must_never_fails {A} (x : outcome A) (e : string) : Must x <> Failed e.
Proof. destruct x; discriminate. Qed.

Lemma Must_getEnvWithoutDefault (env : configenv.Env) (key value : string) :
  Must (configenv.getEnvWithoutDefault env key) = Returned value <->
  configenv.Getenv env key = value /\ value <> "".
Proof.
  unfold configenv.getEnvWithoutDefault.
  destruct (String.eqb_spec (configenv.Getenv env key) ""); cbn; split.
  - discriminate.
  - intros [<- Hne]. contradiction.
  - intros [= <-]. auto.
  - intros [-> _]. reflexivity.
Qed.

Lemma getBoolEnv_never_fails env key d e : configenv.getBoolEnv env key d <> Failed e.
Proof.
  unfold configenv.getBoolEnv. destruct (negb _); [|discriminate].
  destruct (strconv.ParseBool _); discriminate.
Qed.

Lemma getIntEnv_never_fails env key d e : configenv.getIntEnv env key d <> Failed e.
Proof.
  unfold configenv.getIntEnv. destruct (negb _); [|discriminate].
  destruct (strconv.Atoi _); discriminate.
Qed.

(** X14. For every reader of the environment a variable that is set to
    the empty string is a variable that is not set: the default is used,
    and a required variable counts as missing. *)
Theorem empty_variable_counts_as_unset (env : configenv.Env) (key : string)
    (Hempty : env !! key = None \/ env !! key = Some "") :
  (forall d, configenv.getEnv env key d = d)
  /\ configenv.getEnvWithoutDefault env key
     = Failed ("required environment variable " +:+ key +:+ " is not set")
  /\ (forall d, configenv.getBoolEnv env key d = Returned d)
  /\ (forall d, configenv.getIntEnv env key d = Returned d)
  /\ (forall d, configenv.getSliceEnv env key d = d).
Proof.
  assert (Hget : configenv.Getenv env key = "").
  { unfold configenv.Getenv. destruct Hempty as [-> | ->]; reflexivity. }
  unfold configenv.getEnv, configenv.getEnvWithoutDefault, configenv.getBoolEnv,
    configenv.getIntEnv, configenv.getSliceEnv.
  rewrite Hget. repeat split.
Qed.

(** X14 for a [PORT] that is set and empty: the port is 8080. *)
Lemma empty_variable_counts_as_unset_witness :
  configenv.getEnv {[ "PORT" := "" ]} "PORT" "8080" = "8080".
Proof.
  apply (empty_variable_counts_as_unset {[ "PORT" := "" ]} "PORT").
  right. reflexivity.
Defined.

(** X15. [Load] returns an error in one case only, when [.env] cannot be
    loaded. Once it is loaded, a missing [DB_PATH] ends the process
    through [Must] with the message of the missing variable, and neither
    [Load] nor [readFileFromEnvPath] ever hands an error back to its
    caller. *)
Theorem Load_returns_an_error_only_for_dotenv (env : configenv.Env) :
  (forall dotenv e,
     snd (configenv.Load env dotenv) = Failed e <->
     exists err, dotenv = inl err /\ e = "error loading .env file: " +:+ err)
  /\ (forall vars,
        configenv.Getenv (env ∪ vars) "DB_PATH" = "" ->
        snd (configenv.Load env (inr vars))
        = Exited "required environment variable DB_PATH is not set")
  /\ (forall files envPath e, configenv.readFileFromEnvPath env files envPath <> Failed e).
Proof.
  split; [|split].
  - intros [err|vars] e; cbn [configenv.Load configenv.godotenv_Load snd].
    + split; [intros [= <-]; eauto | intros (err' & [= <-] & ->); reflexivity].
    + split; [|intros (err & Hd & _); discriminate]. intro Hfail. exfalso.
      repeat match type of Hfail with
             | _ ≫= _ = Failed _ =>
                 apply and_then_Failed in Hfail as [Hfail | (? & _ & Hfail)]
             | Must _ = Failed _ => exact (Must_never_fails _ _ Hfail)
             | configenv.getBoolEnv _ _ _ = Failed _ =>
                 exact (getBoolEnv_never_fails _ _ _ _ Hfail)
             | configenv.getIntEnv _ _ _ = Failed _ =>
                 exact (getIntEnv_never_fails _ _ _ _ Hfail)
             end.
      cbn in Hfail. discriminate.
  - intros vars Hmissing. cbn [configenv.Load configenv.godotenv_Load snd].
    assert (Hpath : Must (configenv.getEnvWithoutDefault (env ∪ vars) "DB_PATH")
                    = Exited "required environment variable DB_PATH is not set").
    { unfold configenv.getEnvWithoutDefault. rewrite Hmissing. reflexivity. }
    rewrite Hpath. reflexivity.
  - intros files envPath e Hfail. unfold configenv.readFileFromEnvPath in Hfail.
    repeat match type of Hfail with
           | _ ≫= _ = Failed _ =>
               apply and_then_Failed in Hfail as [Hfail | (? & _ & Hfail)]
           | Must _ = Failed _ => exact (Must_never_fails _ _ Hfail)
           end.
    discriminate.
Qed.

(** X16. When [Load] returns a configuration, the environment is the
    process environment completed by [.env], in which a variable the
    process already had keeps its value; the database path and the API key
    are the values of [DB_PATH] and [API_KEY] there and are not empty; the
    port is not empty; and the server limits are the fixed ones. *)
Theorem Load_gives_a_complete_configuration (env env' vars : configenv.Env)
    (cfg : config.Config)
    (Hload : configenv.Load env (inr vars) = (env', Returned cfg)) :
  env' = env ∪ vars
  /\ (forall k v, env !! k = Some v -> configenv.Getenv env' k = v)
  /\ (forall k, env !! k = None -> configenv.Getenv env' k = configenv.Getenv vars k)
  /\ config.Path (config.Database cfg) = configenv.Getenv env' "DB_PATH"
  /\ config.Path (config.Database cfg) <> ""
  /\ config.Key (config.API cfg) = configenv.Getenv env' "API_KEY"
  /\ config.Key (config.API cfg) <> ""
  /\ config.Port cfg <> ""
  /\ config.RequestSizeLimit (config.Server cfg) = 10240
  /\ config.ReadTimeout (config.Server cfg) = 10 * config.Second
  /\ config.WriteTimeout (config.Server cfg) = 20 * config.Second
  /\ config.IdleTimeout (config.Server cfg) = 60 * config.Second
  /\ config.HandlerTimeout (config.Server cfg) = 25 * config.Second.
Proof.
  cbn [configenv.Load configenv.godotenv_Load] in Hload.
  injection Hload as <- Hload.
  apply and_then_Returned in Hload as (path & Hpath & Hload).
  apply and_then_Returned in Hload as (walMode & _ & Hload).
  apply and_then_Returned in Hload as (timeoutSecs & _ & Hload).
  apply and_then_Returned in Hload as (maxOpen & _ & Hload).
  apply and_then_Returned in Hload as (maxIdle & _ & Hload).
  apply and_then_Returned in Hload as (key & Hkey & Hload).
  apply and_then_Returned in Hload as (connections & _ & Hload).
  apply and_then_Returned in Hload as (perIP & _ & Hload).
  apply and_then_Returned in Hload as (clearSecs & _ & Hload).
  cbn [configenv.validate] in Hload. injection Hload as <-.
  apply Must_getEnvWithoutDefault in Hpath as [Hpath Hpath'].
  apply Must_getEnvWithoutDefault in Hkey as [Hkey Hkey'].
  cbn [config.Path config.Database config.Key config.API config.Port config.Server
       config.RequestSizeLimit config.ReadTimeout config.WriteTimeout
       config.IdleTimeout config.HandlerTimeout].
  split; [reflexivity|]. split.
  { intros k v Hk. unfold configenv.Getenv.
    rewrite (lookup_union_Some_l env vars k v Hk). reflexivity. }
  split.
  { intros k Hk. unfold configenv.Getenv. rewrite lookup_union_r by exact Hk.
    reflexivity. }
  repeat split; auto.
  unfold configenv.getEnv.
  destruct (String.eqb_spec (configenv.Getenv (env ∪ vars) "PORT") "") as [E|E];
    cbn [negb]; [discriminate | exact E].
Qed.

(** X16 with the two required variables in the process environment and an
    empty [.env]: the result is the sample configuration. *)
Lemma Load_gives_a_complete_configuration_witness :
  configenv.Load two_vars (inr ∅) = (two_vars ∪ ∅, Returned sample_config)
  /\ config.Path (config.Database sample_config) = "stund.db".
Proof.
  assert (Hload : configenv.Load two_vars (inr ∅) = (two_vars ∪ ∅, Returned sample_config)).
  { vm_compute. reflexivity. }
  split; [exact Hload|].
  destruct (Load_gives_a_complete_configuration two_vars (two_vars ∪ ∅) ∅ sample_config
              Hload) as (_ & _ & _ & Hpath & _).
  rewrite Hpath. vm_compute. reflexivity.
Defined.

Lemma Split_cons (c : ascii) (s : string) (sep : ascii) :
  exists piece pieces, strings.Split s sep = piece :: pieces.
Proof.
  destruct s as [|x s]; cbn [strings.Split]; [eauto|].
  destruct (Ascii.eqb x sep); [eauto|].
  destruct (strings.Split s sep); eauto.
Qed.

Lemma join_with_cons (sep : ascii) (p q : string) (rest : list string) :
  join_with sep (p :: q :: rest) = p +:+ String sep (join_with sep (q :: rest)).
Proof. reflexivity. Qed.

Lemma Split_joined (s : string) (sep : ascii) :
  join_with sep (strings.Split s sep) = s.
Proof.
  induction s as [|x s IH]; [reflexivity|]. cbn [strings.Split].
  destruct (Split_cons x s sep) as (piece & pieces & Hsplit). rewrite Hsplit in *.
  destruct (Ascii.eqb_spec x sep) as [->|Hne].
  - rewrite join_with_cons, IH. reflexivity.
  - destruct pieces as [|piece' pieces].
    + cbn [join_with] in *. now rewrite IH.
    + rewrite join_with_cons in *. rewrite <- IH. reflexivity.
Qed.

Lemma Split_length (s : string) (sep : ascii) :
  length (strings.Split s sep) = S (count_byte sep s).
Proof.
  induction s as [|x s IH]; [reflexivity|]. cbn [strings.Split count_byte].
  destruct (Split_cons x s sep) as (piece & pieces & Hsplit). rewrite Hsplit in *.
  destruct (Ascii.eqb x sep); cbn [length] in *; lia.
Qed.

Lemma Split_pieces_free (s : string) (sep : ascii) :
  Forall (fun piece => count_byte sep piece = O) (strings.Split s sep).
Proof.
  induction s as [|x s IH]; [repeat constructor|]. cbn [strings.Split].
  destruct (Split_cons x s sep) as (piece & pieces & Hsplit). rewrite Hsplit in *.
  destruct (Ascii.eqb x sep) eqn:Ex.
  - constructor; [reflexivity | exact IH].
  - inversion IH as [|? ? Hpiece Hpieces]; subst.
    constructor; [|exact Hpieces]. cbn [count_byte]. rewrite Ex. exact Hpiece.
Qed.

(** X17. For a variable that is set and not empty, [getSliceEnv] gives
    one entry more than the value has commas, empty entries included, and
    the entries are, in order, the comma-free pieces of the value with the
    white space around each piece removed. The default plays no part. *)
Theorem getSliceEnv_entries (env : configenv.Env) (key : string) (d : list string)
    (Hset : configenv.Getenv env key <> "") :
  length (configenv.getSliceEnv env key d)
  = S (count_byte "," (configenv.Getenv env key))
  /\ exists pieces,
       configenv.getSliceEnv env key d = map strings.TrimSpace pieces
       /\ join_with "," pieces = configenv.Getenv env key
       /\ Forall (fun piece => count_byte "," piece = O) pieces.
Proof.
  unfold configenv.getSliceEnv. apply String.eqb_neq in Hset. rewrite Hset. cbn [negb].
  split.
  - rewrite length_map. apply Split_length.
  - exists (strings.Split (configenv.Getenv env key) ",").
    split; [reflexivity|]. split; [apply Split_joined | apply Split_pieces_free].
Qed.

(** X17 for two origins written with spaces around the comma. *)
Lemma getSliceEnv_entries_witness :
  configenv.getSliceEnv
    {[ "ALLOWED_ORIGINS" := " https://a.example , https://b.example" ]}
    "ALLOWED_ORIGINS" []
  = ["https://a.example"; "https://b.example"]
  /\ length (configenv.getSliceEnv
               {[ "ALLOWED_ORIGINS" := " https://a.example , https://b.example" ]}
               "ALLOWED_ORIGINS" []) = 2%nat.
Proof.
  split; [reflexivity|].
  assert (Hset : configenv.Getenv
                   {[ "ALLOWED_ORIGINS" := " https://a.example , https://b.example" ]}
                   "ALLOWED_ORIGINS" <> "").
  { intro E. vm_compute in E. discriminate E. }
  rewrite (proj1 (getSliceEnv_entries
                    {[ "ALLOWED_ORIGINS" := " https://a.example , https://b.example" ]}
                    "ALLOWED_ORIGINS" [] Hset)).
  reflexivity.
Defined.

(** ** The database package: what [NewSQLiteDB] asks of the handle *)

Lemma recording_Exec {D : Type} `{!sql.DB D} (d : D) (seen : list Event) (q : string) :
  sql.Exec (d, seen) q
  = (fst (sql.Exec d q), seen ++ [event (CallExec q) (snd (sql.Exec d q))],
     snd (sql.Exec d q)).
Proof.
  unfold sql.Exec at 1, Recording_DB. cbn [fst snd].
  destruct (sql.Exec d q); reflexivity.
Qed.

Lemma recording_Open {D : Type} `{!sql.DB D} (d : D) (seen : list Event) (drv dsn : string) :
  sql.Open (d, seen) drv dsn
  = (fst (sql.Open d drv dsn), seen ++ [event (CallOpen drv dsn) (snd (sql.Open d drv dsn))],
     snd (sql.Open d drv dsn)).
Proof.
  unfold sql.Open at 1, Recording_DB. cbn [fst snd].
  destruct (sql.Open d drv dsn); reflexivity.
Qed.

Lemma recording_Ping {D : Type} `{!sql.DB D} (d : D) (seen : list Event) :
  sql.Ping (d, seen)
  = (fst (sql.Ping d), seen ++ [event CallPing (snd (sql.Ping d))], snd (sql.Ping d)).
Proof.
  unfold sql.Ping at 1, Recording_DB. cbn [fst snd].
  destruct (sql.Ping d); reflexivity.
Qed.

Lemma recording_setters {D : Type} `{!sql.DB D} (d : D) (seen : list Event) (n : Z) :
  sql.SetConnMaxLifetime (d, seen) n
  = (sql.SetConnMaxLifetime d n, seen ++ [Did (CallSetConnMaxLifetime n)])
  /\ sql.SetMaxOpenConns (d, seen) n
     = (sql.SetMaxOpenConns d n, seen ++ [Did (CallSetMaxOpenConns n)])
  /\ sql.SetMaxIdleConns (d, seen) n
     = (sql.SetMaxIdleConns d n, seen ++ [Did (CallSetMaxIdleConns n)]).
Proof. repeat split; reflexivity. Qed.

Lemma exec_each_log {D : Type} `{!sql.DB D} (l : list string) (d : D) (seen : list Event) :
  (snd (database.exec_each (d, seen) l) = None
   /\ snd (fst (database.exec_each (d, seen) l)) = seen ++ map Did (map CallExec l))
  \/ (exists done p rest e,
        l = done ++ p :: rest
        /\ snd (database.exec_each (d, seen) l) = Some e
        /\ snd (fst (database.exec_each (d, seen) l))
           = seen ++ map Did (map CallExec done) ++ [Refused (CallExec p) e]).
Proof.
  revert d seen. induction l as [|q l IH]; intros d seen.
  - left. cbn. rewrite app_nil_r. split; reflexivity.
  - cbn [database.exec_each]. rewrite recording_Exec.
    destruct (sql.Exec d q) as [d' [e|]] eqn:E; cbn [fst snd event].
    + right. exists [], q, l, e. cbn. repeat split; reflexivity.
    + destruct (IH d' (seen ++ [Did (CallExec q)]))
        as [[H1 H2]|(done & p & rest & e & Hl & H1 & H2)].
      * left. split; [exact H1|]. rewrite H2. cbn. rewrite <- app_assoc. reflexivity.
      * right. exists (q :: done), p, rest, e. split; [rewrite Hl; reflexivity|].
        split; [exact H1|]. rewrite H2. cbn. rewrite <- app_assoc. reflexivity.
Qed.

(** Every way a call of [NewSQLiteDB] on a recording handle can go. *)
Lemma NewSQLiteDB_log {D : Type} `{!sql.DB D} (world : D) (cfg : config.Config) :
  let res := database.NewSQLiteDB (world, []) cfg in
  let log := snd (fst res) in
  let err := snd res in
  (exists e,
      err = Some "database connection failed"
      /\ log = [Refused (CallOpen "sqlite3" (config.Path (config.Database cfg))) e])
  \/ (exists done p rest e,
      database.pragmas cfg = done ++ p :: rest
      /\ err = Some "failed to set SQLite PRAGMA settings"
      /\ log = map Did (opening cfg ++ map CallExec done) ++ [Refused (CallExec p) e])
  \/ (exists e,
      err = Some "failed to ping database"
      /\ log = map Did (opening cfg ++ map CallExec (database.pragmas cfg) ++ tuning cfg)
               ++ [Refused CallPing e])
  \/ (exists e,
      err = Some "failed to initialize schema"
      /\ log = map Did (opening cfg ++ map CallExec (database.pragmas cfg) ++ tuning cfg
                        ++ [CallPing])
               ++ [Refused (CallExec database.schema) e])
  \/ (err = None /\ log = map Did (script cfg)).
Proof.
  cbv zeta. unfold database.NewSQLiteDB. rewrite recording_Open.
  destruct (sql.Open world _ _) as [d1 [e|]]; cbn [fst snd event app].
  { left. exists e. split; reflexivity. }
  right.
  destruct (exec_each_log (database.pragmas cfg) d1
              [Did (CallOpen "sqlite3" (config.Path (config.Database cfg)))])
    as [[H1 H2]|(done & p & rest & e & Hl & H1 & H2)];
    destruct (database.exec_each _ (database.pragmas cfg)) as [[d2 log2] err2];
    cbn [fst snd] in H1, H2; subst err2 log2.
  2:{ left. exists done, p, rest, e. split; [exact Hl|]. split; [reflexivity|].
      cbn [fst snd opening app map]. reflexivity. }
  right.
  rewrite (proj1 (recording_setters _ _ _)).
  rewrite (proj1 (proj2 (recording_setters _ _ _))).
  rewrite (proj2 (proj2 (recording_setters _ _ _))).
  rewrite recording_Ping.
  match goal with |- context [sql.Ping ?d] => destruct (sql.Ping d) as [d3 [e|]] end;
    cbn [fst snd event].
  { left. exists e. split; [reflexivity|].
    unfold opening, tuning. cbn [app map]. rewrite !map_app. cbn [map app].
    rewrite <- !app_assoc. reflexivity. }
  right.
  unfold database.initSchema. rewrite recording_Exec.
  destruct (sql.Exec d3 database.schema) as [d4 [e|]]; cbn [fst snd event].
  { left. exists e. split; [reflexivity|].
    unfold opening, tuning. cbn [app map]. rewrite !map_app. cbn [map app].
    rewrite <- !app_assoc. reflexivity. }
  right. split; [reflexivity|].
  unfold script, opening, tuning. cbn [app map]. rewrite !map_app. cbn [map app].
  rewrite <- !app_assoc. reflexivity.
Qed.

Lemma pragma_is_not_schema (cfg : config.Config) (p : string) :
  In p (database.pragmas cfg) -> String.eqb p database.schema = false.
Proof.
  unfold database.pragmas.
  destruct (config.WALMode (config.Database cfg)); cbn [app In];
    intros Hin; repeat (destruct Hin as [<-|Hin]; [reflexivity|]); destruct Hin.
Qed.

(** X18. On every database handle, [NewSQLiteDB] asks for the calls of
    one fixed script in order (open, the two or six pragmas, the three
    pool settings, ping, the schema) and stops at the first call that
    comes back with an error: either every call of the script went through
    and the error is nil, or the calls before the refused one went
    through, nothing was asked after it, and the error returned is the
    fixed message of that stage, never the text of the handle's own
    error. *)
Theorem NewSQLiteDB_stops_at_the_first_refusal
    {D : Type} `{!sql.DB D} (world : D) (cfg : config.Config) :
  let res := database.NewSQLiteDB (world, []) cfg in
  let log := snd (fst res) in
  let err := snd res in
  (err = None /\ log = map Did (script cfg))
  \/ (exists done c rest e,
        script cfg = done ++ c :: rest
        /\ log = map Did done ++ [Refused c e]
        /\ err = Some (report c)).
Proof.
  cbv zeta.
  destruct (NewSQLiteDB_log world cfg)
    as [(e & He & Hlog)
       |[(done & p & rest & e & Hl & He & Hlog)
        |[(e & He & Hlog)|[(e & He & Hlog)|[He Hlog]]]]].
  - right. exists [], (CallOpen "sqlite3" (config.Path (config.Database cfg))),
      (map CallExec (database.pragmas cfg) ++ tuning cfg
       ++ [CallPing; CallExec database.schema]), e.
    repeat split; assumption || reflexivity.
  - right. exists (opening cfg ++ map CallExec done), (CallExec p),
      (map CallExec rest ++ tuning cfg ++ [CallPing; CallExec database.schema]), e.
    split; [|split; [exact Hlog|]].
    + unfold script. rewrite Hl, map_app. cbn [map]. rewrite <- !app_assoc. reflexivity.
    + rewrite He. cbn [report].
      rewrite (pragma_is_not_schema cfg p); [reflexivity|].
      rewrite Hl. apply in_or_app. right. left. reflexivity.
  - right. exists (opening cfg ++ map CallExec (database.pragmas cfg) ++ tuning cfg),
      CallPing, [CallExec database.schema], e.
    split; [|split; [exact Hlog|exact He]].
    unfold script. rewrite <- !app_assoc. reflexivity.
  - right. exists (opening cfg ++ map CallExec (database.pragmas cfg) ++ tuning cfg
                   ++ [CallPing]),
      (CallExec database.schema), [], e.
    split; [|split; [exact Hlog|]].
    + unfold script. rewrite <- !app_assoc. reflexivity.
    + rewrite He. cbn [report]. rewrite String.eqb_refl. reflexivity.
  - left. split; assumption.
Qed.

(** X19. [NewSQLiteDB] never closes the handle, on any path: when a
    pragma, the ping or the schema is refused, that is for every error
    other than the one for a failed open, the caller gets no handle while
    the one that was opened stays open. *)
Theorem NewSQLiteDB_never_closes
    {D : Type} `{!sql.DB D} (world : D) (cfg : config.Config) :
  let res := database.NewSQLiteDB (world, []) cfg in
  let log := snd (fst res) in
  (forall e, ~ In (Did CallClose) log /\ ~ In (Refused CallClose e) log)
  /\ (snd res <> Some "database connection failed" ->
      In (Did (CallOpen "sqlite3" (config.Path (config.Database cfg)))) log).
Proof.
  cbv zeta.
  destruct (NewSQLiteDB_log world cfg)
    as [(e & He & Hlog)
       |[(done & p & rest & e & Hl & He & Hlog)
        |[(e & He & Hlog)|[(e & He & Hlog)|[He Hlog]]]]];
    rewrite Hlog, He; unfold script, opening, tuning;
    (split; [intros e'; split; intros Hin|intros Herr]).
  all: try (left; reflexivity).
  all: try (exfalso; apply Herr; reflexivity).
  all: rewrite ?map_app, ?in_app_iff in Hin; cbn [In map] in Hin.
  all: repeat match goal with
         | H : _ \/ _ |- _ => destruct H
         | H : False |- _ => destruct H
         | H : In _ (map _ _) |- _ =>
             apply in_map_iff in H; destruct H as (? & ? & ?)
         | H : _ = _ |- _ => discriminate H
         | H : Did _ = Did _ |- _ => injection H as ->
         end.
Qed.

Lemma mul64_exact (a b : Z) :
  - 2 ^ 63 <= a * b < 2 ^ 63 -> configenv.mul64 a b = a * b.
Proof.
  intros Hrange. unfold configenv.mul64. rewrite Z.mod_small; lia.
Qed.

(** X20. [DB_TIMEOUT] counts seconds: when the configured time-out is at
    most 9223372036 seconds in absolute value and [NewSQLiteDB] returns a
    handle, the handle was given that time in milliseconds as its busy
    time-out and in nanoseconds as the lifetime of its connections, with
    no wrap-around in either product. *)
Theorem NewSQLiteDB_timeout_is_in_seconds
    {D : Type} `{!sql.DB D} (world : D) (cfg : config.Config)
    (Hrange : - 9223372036 <= config.TimeoutSecs (config.Database cfg) <= 9223372036)
    (Hok : snd (database.NewSQLiteDB (world, []) cfg) = None) :
  let log := snd (fst (database.NewSQLiteDB (world, []) cfg)) in
  let secs := config.TimeoutSecs (config.Database cfg) in
  In (Did (CallExec ("PRAGMA busy_timeout=" +:+ pretty (secs * 1000) +:+ ";"))) log
  /\ In (Did (CallSetConnMaxLifetime (secs * 1000000000))) log.
Proof.
  cbv zeta.
  destruct (NewSQLiteDB_log world cfg)
    as [(e & He & Hlog)
       |[(done & p & rest & e & Hl & He & Hlog)
        |[(e & He & Hlog)|[(e & He & Hlog)|[He Hlog]]]]];
    try (rewrite Hok in He; discriminate He).
  rewrite Hlog. unfold script, tuning, database.pragmas, config.Second.
  rewrite !mul64_exact by lia.
  split; apply in_map, in_or_app; right; apply in_or_app.
  - left. apply in_map.
    destruct (config.WALMode (config.Database cfg)); right; left; reflexivity.
  - right. apply in_or_app. left. left. reflexivity.
Qed.

(** X20 on a handle that refuses nothing, with the time-out of 30
    seconds. *)
Lemma NewSQLiteDB_timeout_is_in_seconds_witness :
  In (Did (CallExec "PRAGMA busy_timeout=30000;"))
     (snd (fst (database.NewSQLiteDB (tt, []) sample_config)))
  /\ In (Did (CallSetConnMaxLifetime 30000000000))
        (snd (fst (database.NewSQLiteDB (tt, []) sample_config))).
Proof.
  assert (Hrange : - 9223372036 <= config.TimeoutSecs (config.Database sample_config)
                   <= 9223372036).
  { cbn. lia. }
  exact (NewSQLiteDB_timeout_is_in_seconds tt sample_config Hrange eq_refl).
Defined.

(** ** The start of [main] *)

Lemma find_only_endpoint (scope : list Middleware) (m0 p0 : string)
    (inline : list Middleware) (h : option Handler) (m path : string) (hit : chi.Hit) :
  chi.find {| chi.stack := scope; chi.tree := [chi.Endpoint m0 p0 inline h] |} m path
  = Some hit ->
  m = m0 /\ path = p0.
Proof.
  unfold chi.find. destruct (existsb (String.eqb m) chi.methods); [|discriminate].
  cbn [chi.stack chi.tree]. intro Hfind.
  apply find_entry_Mount_Some in Hfind as (e & next & hit' & [<-|[]] & Hsel & _).
  destruct Hsel as [[Hex _] | (tail & Hunder & _)]; [|discriminate Hunder].
  cbn [chi.exact] in Hex. apply andb_prop in Hex as [Hm Hp].
  apply String.eqb_eq in Hm, Hp. auto.
Qed.

(** X8. The start of [main], for every environment, every [.env], every
    database and every set of stock middlewares, ends in one of these
    ways. The process exits: [config.Load] gave no configuration, or
    [NewSQLiteDB] returned an error, which is the message. [router.New]
    panics: the configuration has a connection limit below 1. Or the
    server is about to start: the text to log is the start line with the
    configured port followed by the one line [GET /health], the
    dispatcher took its registrations and routes [GET /health], and
    nothing else, to the health handler behind the [Use] stack, and the
    tree is dropped. *)
Theorem main_start_outcomes {D : Type} `{!sql.DB D} (lib : chi.Stock)
    (env : configenv.Env) (dotenv : string + configenv.Env) (world : D) :
  match snd (main_start lib env dotenv world) with
  | Panic msg =>
      exists cfg,
        Must (snd (configenv.Load env dotenv)) = Returned cfg
        /\ snd (database.NewSQLiteDB world cfg) = None
        /\ config.ConnectionsLimit (config.Server cfg) < 1
  | Ok (Failed err) => False
  | Ok (Exited msg) =>
      Must (snd (configenv.Load env dotenv)) = Exited msg
      \/ exists cfg,
           Must (snd (configenv.Load env dotenv)) = Returned cfg
           /\ snd (database.NewSQLiteDB world cfg) = Some msg
  | Ok (Returned (r, text)) =>
      exists cfg,
        Must (snd (configenv.Load env dotenv)) = Returned cfg
        /\ snd (database.NewSQLiteDB world cfg) = None
        /\ 1 <= config.ConnectionsLimit (config.Server cfg)
        /\ text = "✅ Starting HTTP server on port :" +:+ config.Port cfg +:+ nl
                  +:+ route_line "GET" "/health"
        /\ routeTree r = None
        /\ chi.replay (internal r) = chi.Accepts
        /\ chi.find (internal r) "GET" "/health"
           = Some {| chi.hit_chain := chi.stack (internal (New lib cfg)) ++ [];
                     chi.hit_handler := Some healthHandler |}
        /\ (forall m path hit,
              chi.find (internal r) m path = Some hit -> m = "GET" /\ path = "/health")
  end.
Proof.
  unfold main_start.
  destruct (configenv.Load env dotenv) as [env' loaded]. cbn [snd].
  destruct (Must loaded) as [cfg|err|msg] eqn:Eload; cbn [snd].
  2:{ exact (Must_never_fails loaded err Eload). }
  2:{ left. reflexivity. }
  destruct (database.NewSQLiteDB world cfg) as [db [e|]] eqn:Edb; cbn [Must snd].
  { right. exists cfg. rewrite Edb. split; reflexivity. }
  unfold New_call.
  destruct (Z.ltb_spec (config.ConnectionsLimit (config.Server cfg)) 1) as [Hlow|Hok];
    cbn [snd].
  { exists cfg. rewrite Edb. repeat split. exact Hlow. }
  change {| Providers := [] |} with no_providers.
  rewrite SetupRoutes_no_providers. cbn [Fprint Buffer_Writer].
  unfold WriteRoutes, add_routes. cbn [routeTree snd ClearRouteTree internal].
  rewrite writeRoute_buffer.
  exists cfg. rewrite Edb.
  split; [reflexivity|]. split; [reflexivity|]. split; [exact Hok|].
  split.
  { cbn [listing children info handler isNil negb andb flat_map map
      app line_of fst snd join root0 leaf set_children method route].
    rewrite !append_assoc. reflexivity. }
  split; [reflexivity|]. split; [reflexivity|]. split; [reflexivity|].
  intros m path hit Hfind. apply find_only_endpoint in Hfind. exact Hfind.
Qed.
